(** * The data layer of the portfolio application (src/src/App.js)

    A shallow embedding of [class ProjectService] (App.js, lines 158-303) and
    of the contact filter of [ContactManager] (App.js, lines 1686-1692),
    followed by the properties of the specification that concern them.

    JavaScript objects are finite maps from property names to values
    ([gmap string value]); arrays are lists; every method of the service is
    a computation over the state of the service object and of the browser's
    [localStorage], which either completes normally or throws. *)

From Stdlib Require Import ZArith Ascii String List Permutation Sorting.Sorted.
From Stdlib Require DecimalString.
From stdpp Require Import base option gmap strings list.

Local Open Scope string_scope.
Local Open Scope Z_scope.

(** ** JavaScript values *)

Module JS.

(** The values that occur as fields of project and contact records: the
    primitives, arrays of strings ([technologies]) and opaque image
    references (a [File] picked in the form, identified by its handle).
    Numbers are taken integral. *)
Inductive value : Type :=
  | VUndefined
  | VNull
  | VBool (b : bool)
  | VNum (n : Z)
  | VStr (s : string)
  | VArr (xs : list string)
  | VFile (h : positive).

(** ToBoolean. *)
Definition truthy (v : value) : bool :=
  match v with
  | VUndefined | VNull => false
  | VBool b => b
  | VNum n => negb (n =? 0)
  | VStr s => negb (String.eqb s "")
  | VArr _ | VFile _ => true
  end.

(** [a === b].  Primitives compare by value and references by identity.
    An array carries no identity here: the only arrays that reach a
    comparison are ids of records read back by [JSON.parse], which are
    fresh objects and so never identical to a caller's argument. *)
Definition strict_eq (a b : value) : bool :=
  match a, b with
  | VUndefined, VUndefined => true
  | VNull, VNull => true
  | VBool x, VBool y => Bool.eqb x y
  | VNum x, VNum y => x =? y
  | VStr x, VStr y => String.eqb x y
  | VFile x, VFile y => Pos.eqb x y
  | _, _ => false
  end.

(** [!v], [a || b] and [a && b] (the last two return an operand). *)
Definition not_ (v : value) : bool := negb (truthy v).
Definition or_ (a b : value) : value := if truthy a then a else b.
Definition and_ (a b : value) : value := if truthy a then b else a.

(** An object: its own properties.  A property may be present with the
    value [undefined]; reading a missing property gives [undefined] too. *)
Abbreviation obj := (gmap string value).

Definition prop (o : obj) (k : string) : value := default VUndefined (o !! k).

(** [{...a, ...b}]: the properties of [b] win. *)
Definition spread2 (a b : obj) : obj := b ∪ a.

(** *** JSON.parse

    A JSON value, and what [JSON.parse] returns for a text: an array of
    records, which is what the service writes under its keys, or any
    other JSON value. *)
#[local] Unset Elimination Schemes.
Inductive json : Type :=
  | JNull
  | JBool (b : bool)
  | JNum (n : Z)
  | JStr (s : string)
  | JArr (items : list json)
  | JObj (members : list (string * json)).
#[local] Set Elimination Schemes.

Inductive parsed : Type :=
  | Records (collection : list obj)
  | NotRecords (j : json).

(** *** String.prototype.split and trim, on ASCII text *)

Fixpoint split (sep : ascii) (s : string) : list string :=
  match s with
  | EmptyString => [EmptyString]
  | String c s' =>
      if Ascii.eqb c sep then EmptyString :: split sep s'
      else match split sep s' with
           | [] => [String c EmptyString]
           | w :: ws => String c w :: ws
           end
  end.

Definition is_white_space (c : ascii) : bool :=
  match nat_of_ascii c with
  | 9%nat | 10%nat | 11%nat | 12%nat | 13%nat | 32%nat => true
  | _ => false
  end.

Fixpoint trimStart (s : string) : string :=
  match s with
  | EmptyString => EmptyString
  | String c s' => if is_white_space c then trimStart s' else s
  end.

Fixpoint trimEnd (s : string) : string :=
  match s with
  | EmptyString => EmptyString
  | String c s' =>
      match trimEnd s' with
      | EmptyString => if is_white_space c then EmptyString else String c EmptyString
      | t => String c t
      end
  end.

Definition trim (s : string) : string := trimEnd (trimStart s).

(** *** Array.prototype.sort

    [sort] with a comparison function.  The function returns a number or
    NaN ([None]); ECMAScript reads NaN as 0.  The sort is stable; on a
    consistent comparison function every stable sort returns the same
    array, here the one of insertion from the right.  On a comparison
    function that is not consistent the engine may return the elements
    in any order: what is stated below about the order of a result is
    stated where the comparison is consistent (every date readable,
    or the comparison of texts), and nothing else is drawn from the
    order that this definition fixes. *)
Definition SortCompare {A} (comparefn : A → A → option Z) (x y : A) : Z :=
  default 0 (comparefn x y).

Fixpoint insert_sorted {A} (comparefn : A → A → option Z) (x : A) (l : list A) : list A :=
  match l with
  | [] => [x]
  | y :: l' =>
      if SortCompare comparefn x y <=? 0 then x :: y :: l'
      else y :: insert_sorted comparefn x l'
  end.

Definition sort {A} (comparefn : A → A → option Z) (l : list A) : list A :=
  foldr (insert_sorted comparefn) [] l.

(** [a] may stand before [b] in a list that descends along [key]. *)
Definition descends {A} (key : A → Z) (a b : A) : Prop := key b ≤ key a.

(** *** Completions *)

Inductive exn : Type := TypeError | SyntaxError | DOMException.

Inductive completion (A : Type) : Type :=
  | Normal (a : A)
  | Throw (e : exn).
Arguments Normal {A} a.
Arguments Throw {A} e.

End JS.
Import JS.

(** ** The state of the program and of its host *)

(** [localStorage]: either access is refused (every call throws) or it
    holds text under keys. *)
Inductive storage : Type :=
  | Blocked
  | Available (items : gmap string string).

(** The fields of the service object, both arrays of records, and the
    browser storage it writes.  The methods are modelled on these states:
    the constructor gives one when what it reads under each key is an
    array of records, and every method leaves one. *)
Record world : Type := World {
  projects : list obj;
  contacts : list obj;
  localStorage : storage
}.

(** What one call reads from the clock and the random generator:
    [new Date().toISOString()] (first and second evaluation), the digits
    of [Date.now()] and [Math.random().toString(36).substr(2, 9)]. *)
Record readings : Type := Readings {
  toISOString_1 : string;
  toISOString_2 : string;
  Date_now : string;
  Math_random : string
}.

(** Computations that read and write the world and may throw.  The world
    after a throw is the one reached when the exception left. *)
Definition M (A : Type) : Type := world → completion A * world.

Definition ret {A} (a : A) : M A := fun w => (Normal a, w).

Definition throw {A} (e : exn) : M A := fun w => (Throw e, w).

Definition bind {A B} (m : M A) (k : A → M B) : M B :=
  fun w => match m w with
           | (Normal a, w') => k a w'
           | (Throw e, w') => (Throw e, w')
           end.

Definition try_catch {A} (body : M A) (handler : exn → M A) : M A :=
  fun w => match body w with
           | (Normal a, w') => (Normal a, w')
           | (Throw e, w') => handler e w'
           end.

Definition lift {A} (c : completion A) : M A := fun w => (c, w).

Definition get_world : M world := fun w => (Normal w, w).

Definition set_projects (ps : list obj) : M unit :=
  fun w => (Normal tt, World ps (contacts w) (localStorage w)).

Definition set_contacts (cs : list obj) : M unit :=
  fun w => (Normal tt, World (projects w) cs (localStorage w)).

Notation "'let!' x ':=' m 'in' k" := (bind m (fun x => k))
  (at level 10, x name, m at level 100, k at level 200).
Notation "'do!' m 'in' k" := (bind m (fun _ => k))
  (at level 10, m at level 100, k at level 200).

(** [console.error(...)] leaves no trace in the world. *)
Definition console_error : M unit := ret tt.

(** [await this.delay(ms)]: the caller is suspended and resumed; the body
    after it runs to completion without interleaving (one thread). *)
Definition delay (ms : Z) : M unit := ret tt.

Module CONFIG.
Definition ADMIN_PASSWORD : string := "project".
Definition FETCH : Z := 600.
Definition SAVE : Z := 800.
Definition DELETE : Z := 500.
Definition CONTACT : Z := 700.
End CONFIG.

Definition INITIAL_PROJECTS : list obj :=
  [ {[ "_id" := VStr "p1";
       "title" := VStr "MERN Stack E-Commerce";
       "description" := VStr "A full-featured shopping platform with user authentication and payment integration.";
       "technologies" := VArr ["MongoDB"; "Express"; "React"; "Node.js"; "Stripe"];
       "liveUrl" := VStr "https://example-ecommerce.com";
       "githubUrl" := VStr "https://github.com/example/ecommerce";
       "isContact" := VBool false;
       "createdAt" := VStr "2024-01-15T00:00:00.000Z" ]};
    {[ "_id" := VStr "p2";
       "title" := VStr "Real-Time Chat App";
       "description" := VStr "Built with Socket.io for instant messaging, demonstrating excellent WebSocket handling.";
       "technologies" := VArr ["Node.js"; "Socket.io"; "React"; "Tailwind"];
       "liveUrl" := VStr "https://example-chat.com";
       "githubUrl" := VStr "https://github.com/example/chat-app";
       "isContact" := VBool false;
       "createdAt" := VStr "2024-02-20T00:00:00.000Z" ]};
    {[ "_id" := VStr "p3";
       "title" := VStr "Data Visualization Dashboard";
       "description" := VStr "Interactive dashboard using D3.js and TypeScript to display complex data sets.";
       "technologies" := VArr ["TypeScript"; "D3.js"; "React"];
       "liveUrl" := VStr "https://example-dashboard.com";
       "githubUrl" := VStr "https://github.com/example/dashboard";
       "isContact" := VBool false;
       "createdAt" := VStr "2024-03-10T00:00:00.000Z" ]} ].

(** ** class ProjectService *)

Module ProjectService.

Section Host.

(** The host functions the service calls.  [JSON.parse] throws on text that
    is not JSON and returns the value of any text that is.
    [JSON.stringify] of an array of records does not throw.  [setItem]
    throws when the quota is exceeded.  [new Date(v)] read as a number is
    its time value in milliseconds, NaN ([None]) for an invalid date. *)
Variable JSON_parse : string → completion parsed.
Variable JSON_stringify : list obj → string.
Variable quota_exceeded : gmap string string → string → string → bool.
Variable new_Date : value → option Z.

(** [localStorage.getItem(key)]: the text, or [null]. *)
Definition localStorage_getItem (key : string) : M (option string) :=
  fun w => match localStorage w with
           | Blocked => (Throw DOMException, w)
           | Available items => (Normal (items !! key), w)
           end.

(** [localStorage.setItem(key, text)]. *)
Definition localStorage_setItem (key text : string) : M unit :=
  fun w => match localStorage w with
           | Blocked => (Throw DOMException, w)
           | Available items =>
               if quota_exceeded items key text then (Throw DOMException, w)
               else (Normal tt, World (projects w) (contacts w) (Available (<[key := text]> items)))
           end.

(** [stored ? JSON.parse(stored) : fallback]: [null] and the empty text
    are falsy.  What [JSON.parse] returns is returned as it is, whatever
    its shape. *)
Definition parse_or (stored : option string) (fallback : list obj) : M parsed :=
  match stored with
  | Some text => if String.eqb text "" then ret (Records fallback) else lift (JSON_parse text)
  | None => ret (Records fallback)
  end.

Definition loadFromStorage : M parsed :=
  try_catch
    (let! stored := localStorage_getItem "portfolio-projects" in
     parse_or stored INITIAL_PROJECTS)
    (fun _ => ret (Records INITIAL_PROJECTS)).

Definition loadContactsFromStorage : M parsed :=
  try_catch
    (let! stored := localStorage_getItem "portfolio-contacts" in
     parse_or stored [])
    (fun _ => ret (Records [])).

(** The two fields that the constructor assigns, each with what its
    loader returned. *)
Record fields : Type := Fields {
  this_projects : parsed;
  this_contacts : parsed
}.

Definition constructor : M fields :=
  let! ps := loadFromStorage in
  let! cs := loadContactsFromStorage in
  ret (Fields ps cs).

Definition saveToStorage : M unit :=
  try_catch
    (let! w := get_world in
     localStorage_setItem "portfolio-projects" (JSON_stringify (projects w)))
    (fun _ => console_error).

Definition saveContactsToStorage : M unit :=
  try_catch
    (let! w := get_world in
     localStorage_setItem "portfolio-contacts" (JSON_stringify (contacts w)))
    (fun _ => console_error).

(** [new Date(b.createdAt) - new Date(a.createdAt)] *)
Definition minus (x y : option Z) : option Z :=
  match x, y with
  | Some a, Some b => Some (a - b)
  | _, _ => None
  end.

Definition by_createdAt (a b : obj) : option Z :=
  minus (new_Date (prop b "createdAt")) (new_Date (prop a "createdAt")).

Definition fetchAll : M (list obj) :=
  do! delay CONFIG.FETCH in
  let! w := get_world in
  ret (sort by_createdAt (projects w)).

(** The [technologies] entry of [projectData]: an array is taken as it
    is; on anything else [.split(',')] is called, which only a string
    has. *)
Definition technologies_of (t : value) : completion value :=
  match t with
  | VArr xs => Normal (VArr xs)
  | VStr s =>
      Normal (VArr (List.filter (fun tech => truthy (VStr tech))
                      (List.map (fun tech => trim tech) (split "," s))))
  | _ => Throw TypeError
  end.

Definition has_id (id : value) (p : obj) : bool := strict_eq (prop p "_id") id.

(** The object literal bound to [projectData]. *)
Definition projectData_of (r : readings) (project : obj) (technologies : value) : obj :=
  <["bannerImage" := or_ (prop project "bannerImage") VNull]>
    (<["projectImage" := or_ (prop project "projectImage") VNull]>
       (<["updatedAt" := VStr (toISOString_1 r)]>
          (<["technologies" := technologies]> project))).

Definition save (r : readings) (project : obj) : M (option obj) :=
  do! delay CONFIG.SAVE in
  let! technologies := lift (technologies_of (prop project "technologies")) in
  let projectData := projectData_of r project technologies in
  do! (if truthy (prop project "_id") then
         let! w := get_world in
         set_projects
           (List.map (fun p => if strict_eq (prop p "_id") (prop project "_id")
                               then spread2 p projectData else p)
              (projects w))
       else
         let newProject : obj :=
           <["createdAt" := VStr (toISOString_2 r)]>
             (<["_id" := VStr ("p" ++ Date_now r ++ Math_random r)]> projectData) in
         let! w := get_world in
         set_projects (newProject :: projects w)) in
  do! saveToStorage in
  let! w := get_world in
  ret (if truthy (prop projectData "_id")
       then List.find (fun p => strict_eq (prop p "_id") (prop projectData "_id")) (projects w)
       else head (projects w)).

Definition delete (id : value) : M unit :=
  do! delay CONFIG.DELETE in
  let! w := get_world in
  do! set_projects (List.filter (fun p => negb (strict_eq (prop p "_id") id)) (projects w)) in
  saveToStorage.

Definition contact (r : readings) (data : obj) : M obj :=
  do! delay CONFIG.CONTACT in
  let contactData : obj :=
    <["status" := VStr "new"]>
      (<["read" := VBool false]>
         (<["createdAt" := VStr (toISOString_1 r)]>
            (<["_id" := VStr ("c" ++ Date_now r ++ Math_random r)]> data))) in
  let! w := get_world in
  do! set_contacts (contactData :: contacts w) in
  do! saveContactsToStorage in
  ret ({[ "success" := VBool true;
          "message" := VStr "Thank you for your message! I will get back to you soon.";
          "contactId" := prop contactData "_id" ]} : obj).

Definition getContacts : M (list obj) :=
  do! delay CONFIG.FETCH in
  let! w := get_world in
  ret (sort by_createdAt (contacts w)).

Definition markAsRead (contactId : value) : M bool :=
  do! delay 200 in
  let! w := get_world in
  do! set_contacts
        (List.map (fun contact =>
                     if strict_eq (prop contact "_id") contactId
                     then <["status" := VStr "read"]> (<["read" := VBool true]> contact)
                     else contact)
           (contacts w)) in
  do! saveContactsToStorage in
  ret true.

Definition markAsReplied (contactId : value) : M bool :=
  do! delay 200 in
  let! w := get_world in
  do! set_contacts
        (List.map (fun contact =>
                     if strict_eq (prop contact "_id") contactId
                     then <["status" := VStr "replied"]> contact
                     else contact)
           (contacts w)) in
  do! saveContactsToStorage in
  ret true.

Definition deleteContact (contactId : value) : M bool :=
  do! delay CONFIG.DELETE in
  let! w := get_world in
  do! set_contacts
        (List.filter (fun contact => negb (strict_eq (prop contact "_id") contactId))
           (contacts w)) in
  do! saveContactsToStorage in
  ret true.

Definition getUnreadCount (w : world) : nat :=
  length (List.filter (fun contact => not_ (prop contact "read")) (contacts w)).

(** *** Sequences of calls on the contact collection *)

Inductive contact_call : Type :=
  | Call_contact (r : readings) (data : obj)
  | Call_markAsRead (contactId : value)
  | Call_markAsReplied (contactId : value)
  | Call_deleteContact (contactId : value).

Definition call (c : contact_call) : M unit :=
  match c with
  | Call_contact r data => do! contact r data in ret tt
  | Call_markAsRead contactId => do! markAsRead contactId in ret tt
  | Call_markAsReplied contactId => do! markAsReplied contactId in ret tt
  | Call_deleteContact contactId => do! deleteContact contactId in ret tt
  end.

Fixpoint calls (cs : list contact_call) : M unit :=
  match cs with
  | [] => ret tt
  | c :: cs' => do! call c in calls cs'
  end.

(** *** The storage after a guarded write

    [try { localStorage.setItem(key, text) } catch { console.error }]
    replaces the text under [key], or changes nothing when the write
    throws. *)
Definition persisted (key text : string) (st : storage) : storage :=
  match st with
  | Blocked => Blocked
  | Available items =>
      if quota_exceeded items key text then Available items
      else Available (<[key := text]> items)
  end.

End Host.

End ProjectService.

(** ** ContactManager: the filter over the fetched messages *)

Module ContactManager.

(** The callback of [contacts.filter(contact => ...)]; [filter] is the
    selector held in the component state. *)
Definition filter_callback (filter : string) (contact : obj) : value :=
  if String.eqb filter "all" then VBool true
  else if String.eqb filter "new" then VBool (not_ (prop contact "read"))
  else if String.eqb filter "read" then
    and_ (prop contact "read")
         (VBool (negb (strict_eq (prop contact "status") (VStr "replied"))))
  else if String.eqb filter "replied" then
    VBool (strict_eq (prop contact "status") (VStr "replied"))
  else VBool true.

Definition filteredContacts (filter : string) (contacts : list obj) : list obj :=
  List.filter (fun contact => truthy (filter_callback filter contact)) contacts.

(** [const unreadCount = contacts.filter(contact => !contact.read).length] *)
Definition unreadCount (contacts : list obj) : nat :=
  length (List.filter (fun contact => not_ (prop contact "read")) contacts).

End ContactManager.

(** ** ProjectForm: from the form to the service *)

Module ProjectForm.

Definition initialFormState : obj :=
  {[ "title" := VStr "";
     "description" := VStr "";
     "technologies" := VStr "";
     "liveUrl" := VStr "";
     "githubUrl" := VStr "";
     "projectImage" := VNull;
     "bannerImage" := VNull ]}.

(** The form data that the effect on [projectToEdit] sets: for a project
    ([Some]), its fields with the technologies joined by ', ' and the
    images or [null]; for [null] ([None]), the initial state. *)
Definition formData_of (projectToEdit : option obj) : obj :=
  match projectToEdit with
  | Some projectToEdit =>
      <["bannerImage" := or_ (prop projectToEdit "bannerImage") VNull]>
        (<["projectImage" := or_ (prop projectToEdit "projectImage") VNull]>
           (<["technologies" :=
                match prop projectToEdit "technologies" with
                | VArr technologies => VStr (String.concat ", " technologies)
                | technologies => or_ technologies (VStr "")
                end]> projectToEdit))
  | None => initialFormState
  end.

(** [handleChange]: the input named [name] now holds [value]. *)
Definition handleChange (name value : string) (formData : obj) : obj :=
  <[name := VStr value]> formData.

(** [handleImageChange(file, type)]: a file, or [null] when removed. *)
Definition handleImageChange (file : value) (type : string) (formData : obj) : obj :=
  if truthy file then <[type := file]> formData else <[type := VNull]> formData.

Section Host.

(** [new URL(v)] does not throw; and the host functions of the service. *)
Variable URL_accepts : value → bool.
Variable JSON_stringify : list obj → string.
Variable quota_exceeded : gmap string string → string → string → bool.

Definition isValidUrl (string : value) : bool := URL_accepts string.

(** The two checks of [validateForm] on a required text:
    [!formData.name?.trim()], else [formData.name.length < least].  Only
    [null] and [undefined] pass [?.]; a value that is not a string has no
    [trim]. *)
Definition required_text (name : string) (least : nat) (missing short : string)
    (formData : obj) (newErrors : gmap string string) : completion (gmap string string) :=
  match prop formData name with
  | VUndefined | VNull => Normal (<[name := missing]> newErrors)
  | VStr text =>
      if String.eqb (trim text) "" then Normal (<[name := missing]> newErrors)
      else if (String.length text <? least)%nat then Normal (<[name := short]> newErrors)
      else Normal newErrors
  | _ => Throw TypeError
  end.

(** [if (formData.name && !isValidUrl(formData.name))] *)
Definition optional_url (name : string) (formData : obj)
    (newErrors : gmap string string) : gmap string string :=
  if truthy (prop formData name) && negb (isValidUrl (prop formData name))
  then <[name := "Please enter a valid URL"]> newErrors
  else newErrors.

Definition validateForm (formData : obj) : completion (gmap string string) :=
  match required_text "title" 3 "Title is required"
          "Title must be at least 3 characters" formData ∅ with
  | Throw e => Throw e
  | Normal newErrors =>
      match required_text "description" 10 "Description is required"
              "Description must be at least 10 characters" formData newErrors with
      | Throw e => Throw e
      | Normal newErrors =>
          Normal (optional_url "githubUrl" formData (optional_url "liveUrl" formData newErrors))
      end
  end.

(** The object bound to [projectToSave] in [handleSubmit]; [.split] is
    called on [formData.technologies], which only a string has. *)
Definition projectToSave_of (formData : obj) (projectToEdit : option obj) : completion obj :=
  match prop formData "technologies" with
  | VStr technologies =>
      let projectToSave : obj :=
        <["bannerImage" := prop formData "bannerImage"]>
          (<["projectImage" := prop formData "projectImage"]>
             (<["technologies" :=
                  VArr (List.filter (fun tech => (0 <? String.length tech)%nat)
                          (List.map (fun tech => trim tech) (split "," technologies)))]>
                formData)) in
      Normal match projectToEdit with
             | Some projectToEdit =>
                 if truthy (prop projectToEdit "_id")
                 then <["_id" := prop projectToEdit "_id"]> projectToSave
                 else projectToSave
             | None => projectToSave
             end
  | _ => Throw TypeError
  end.

(** How [handleSubmit] ends: with validation errors shown, with
    [status] 'success' and the saved project handed to [onSave], or with
    [status] 'error'. *)
Inductive submitted : Type :=
  | Rejected (errors : gmap string string)
  | Success (savedProject : option obj)
  | Error.

Definition handleSubmit (r : readings) (formData : obj) (projectToEdit : option obj) :
    M submitted :=
  let! validationErrors := lift (validateForm formData) in
  if (0 <? size validationErrors)%nat then ret (Rejected validationErrors)
  else
    try_catch
      (let! projectToSave := lift (projectToSave_of formData projectToEdit) in
       let! savedProject := ProjectService.save JSON_stringify quota_exceeded r projectToSave in
       ret (Success savedProject))
      (fun _ => ret Error).

End Host.

End ProjectForm.

(** ** ProjectAdmin: the list the dashboard keeps *)

Module ProjectAdmin.

(** [Array.prototype.findIndex]; [None] stands for -1. *)
Fixpoint findIndex {A} (predicate : A → bool) (l : list A) : option nat :=
  match l with
  | [] => None
  | x :: l' => if predicate x then Some 0%nat else S <$> findIndex predicate l'
  end.

(** The updater that [handleSave] passes to [setProjects], for a saved
    project that is an object. *)
Definition handleSave (savedProject : obj) (prevProjects : list obj) : list obj :=
  match findIndex (fun p => strict_eq (prop p "_id") (prop savedProject "_id"))
          prevProjects with
  | Some existingIndex => <[existingIndex := savedProject]> prevProjects
  | None => savedProject :: prevProjects
  end.

Section Host.

Variable JSON_stringify : list obj → string.
Variable quota_exceeded : gmap string string → string → string → bool.
Variable new_Date : value → option Z.

(** [fetchProjects]: the list becomes what [fetchAll] returns. *)
Definition fetchProjects : M (list obj) := ProjectService.fetchAll new_Date.

(** [handleDelete(id)]: the service deletes, then the list is filtered. *)
Definition handleDelete (id : value) (prev : list obj) : M (list obj) :=
  try_catch
    (do! ProjectService.delete JSON_stringify quota_exceeded id in
     ret (List.filter (fun p => negb (strict_eq (prop p "_id") id)) prev))
    (fun _ => ret prev).

End Host.

End ProjectAdmin.

(** ** ProjectList: the technology filter and the search *)

Module ProjectList.

(** [String.prototype.toLowerCase] and [includes], on ASCII text. *)
Definition lower (c : ascii) : ascii :=
  let n := nat_of_ascii c in
  if ((65 <=? n) && (n <=? 90))%nat then ascii_of_nat (n + 32) else c.

Fixpoint toLowerCase (s : string) : string :=
  match s with
  | EmptyString => EmptyString
  | String c s' => String (lower c) (toLowerCase s')
  end.

Fixpoint includes (s searchString : string) : bool :=
  String.prefix searchString s
  || match s with
     | EmptyString => false
     | String _ s' => includes s' searchString
     end.

(** [Array.prototype.filter] with a callback that may throw. *)
Fixpoint filter_ {A} (callback : A → completion bool) (l : list A) : completion (list A) :=
  match l with
  | [] => Normal []
  | x :: l' =>
      match callback x with
      | Throw e => Throw e
      | Normal keep =>
          match filter_ callback l' with
          | Throw e => Throw e
          | Normal kept => Normal (if keep then x :: kept else kept)
          end
      end
  end.

(** What [flatMap(p => p.technologies || [])] takes from one project: the
    elements of an array, any other truthy value as one element, nothing
    for a falsy value. *)
Definition technologies_or_none (p : obj) : list value :=
  match prop p "technologies" with
  | VArr technologies => List.map VStr technologies
  | technologies => if truthy technologies then [technologies] else []
  end.

(** [[...new Set(l)]]: the first occurrence of each value, in order. *)
Fixpoint Set_ (l : list value) : list value :=
  match l with
  | [] => []
  | x :: l' => x :: List.filter (fun y => negb (strict_eq y x)) (Set_ l')
  end.

Section Host.

(** [String(n)] for a number. *)
Variable Number_toString : Z → string.

Definition ToString (v : value) : string :=
  match v with
  | VUndefined => "undefined"
  | VNull => "null"
  | VBool true => "true"
  | VBool false => "false"
  | VNum n => Number_toString n
  | VStr s => s
  | VArr xs => String.concat "," xs
  | VFile _ => "[object File]"
  end.

(** The comparison of [sort()] without a comparison function. *)
Definition by_string (x y : value) : option Z :=
  if String.ltb (ToString x) (ToString y) then Some (-1)
  else if String.ltb (ToString y) (ToString x) then Some 1
  else Some 0.

Definition uniqueTechnologies (projects : list obj) : list value :=
  let allTechnologies := List.concat (List.map technologies_or_none projects) in
  let uniqueTechs := sort by_string (Set_ allTechnologies) in
  VStr "All" :: uniqueTechs.

End Host.

(** [p.technologies && p.technologies.includes(selectedTechnology)]: an
    array has the element, a string has the substring, nothing else that
    is truthy has [includes]. *)
Definition has_technology (selectedTechnology : string) (p : obj) : completion bool :=
  match prop p "technologies" with
  | VArr technologies => Normal (existsb (String.eqb selectedTechnology) technologies)
  | VStr technologies =>
      Normal (truthy (VStr technologies) && includes technologies selectedTechnology)
  | technologies => if truthy technologies then Throw TypeError else Normal false
  end.

(** [p.name.toLowerCase().includes(term)]: only a string has
    [toLowerCase]. *)
Definition text_includes (name term : string) (p : obj) : completion bool :=
  match prop p name with
  | VStr text => Normal (includes (toLowerCase text) term)
  | _ => Throw TypeError
  end.

(** [p.technologies && p.technologies.some(tech => ...)]: only an array
    has [some]. *)
Definition some_technology_includes (term : string) (p : obj) : completion bool :=
  match prop p "technologies" with
  | VArr technologies =>
      Normal (existsb (fun tech => includes (toLowerCase tech) term) technologies)
  | technologies => if truthy technologies then Throw TypeError else Normal false
  end.

(** The callback of the search filter: title, else description, else
    technologies. *)
Definition matches_term (term : string) (p : obj) : completion bool :=
  match text_includes "title" term p with
  | Throw e => Throw e
  | Normal true => Normal true
  | Normal false =>
      match text_includes "description" term p with
      | Throw e => Throw e
      | Normal true => Normal true
      | Normal false => some_technology_includes term p
      end
  end.

Definition filteredProjects (projects : list obj)
    (selectedTechnology debouncedSearchTerm : string) : completion (list obj) :=
  match (if String.eqb selectedTechnology "All" then Normal projects
         else filter_ (has_technology selectedTechnology) projects) with
  | Throw e => Throw e
  | Normal filtered =>
      if truthy (VStr debouncedSearchTerm)
      then filter_ (matches_term (toLowerCase debouncedSearchTerm)) filtered
      else Normal filtered
  end.

End ProjectList.

(** ** App: pages and the admin login *)

Module App.

(** The state of the component: the page, the login flag kept by
    [useLocalStorage('admin-login', false)], the password modal; and the
    browser storage. *)
Record state : Type := State {
  page : string;
  isAdminLoggedIn : value;
  showPasswordModal : bool;
  storage_ : storage
}.

Inductive event : Type :=
  | navigate (newPage : string)
  | handleAdminAccessAttempt
  | PasswordModal_handleSubmit (password : string)
  | PasswordModal_onClose
  | handleLogout
  | AccessDenied_onClick.

(** What [renderPage] returns. *)
Inductive rendered : Type := ProjectAdmin | AccessDenied | Home.

Section Host.

(** [JSON.parse] and [JSON.stringify] on single values, and the quota. *)
Variable JSON_parse : string → completion value.
Variable JSON_stringify : value → string.
Variable quota_exceeded : gmap string string → string → string → bool.

(** [useLocalStorage]: the initial state, read once. *)
Definition useLocalStorage_initial (key : string) (initialValue : value)
    (st : storage) : value :=
  match st with
  | Blocked => initialValue
  | Available items =>
      match items !! key with
      | Some item =>
          if String.eqb item "" then initialValue
          else match JSON_parse item with
               | Normal v => v
               | Throw _ => initialValue
               end
      | None => initialValue
      end
  end.

(** [useLocalStorage]: [setValue(value)] for a value that is not a
    function.  The state is set first; a write that throws is logged. *)
Definition setValue (key : string) (valueToStore : value) (st : storage) : value * storage :=
  (valueToStore, ProjectService.persisted quota_exceeded key (JSON_stringify valueToStore) st).

(** The component when it mounts on a storage. *)
Definition mount (st : storage) : state :=
  State "home" (useLocalStorage_initial "admin-login" (VBool false) st) false st.

Definition handleLoginSuccess (s : state) : state :=
  let (stored, st) := setValue "admin-login" (VBool true) (storage_ s) in
  State "admin" stored false st.

Definition step (e : event) (s : state) : state :=
  match e with
  | navigate newPage =>
      State newPage (isAdminLoggedIn s) (showPasswordModal s) (storage_ s)
  | handleAdminAccessAttempt =>
      if truthy (isAdminLoggedIn s)
      then State "admin" (isAdminLoggedIn s) (showPasswordModal s) (storage_ s)
      else State (page s) (isAdminLoggedIn s) true (storage_ s)
  | PasswordModal_handleSubmit password =>
      if String.eqb password CONFIG.ADMIN_PASSWORD then handleLoginSuccess s else s
  | PasswordModal_onClose =>
      State (page s) (isAdminLoggedIn s) false (storage_ s)
  | handleLogout =>
      let (stored, st) := setValue "admin-login" (VBool false) (storage_ s) in
      State "home" stored (showPasswordModal s) st
  | AccessDenied_onClick =>
      State (page s) (isAdminLoggedIn s) true (storage_ s)
  end.

Definition steps (events : list event) (s : state) : state :=
  foldl (fun s e => step e s) s events.

Definition renderPage (s : state) : rendered :=
  if String.eqb (page s) "admin"
  then if truthy (isAdminLoggedIn s) then ProjectAdmin else AccessDenied
  else Home.

End Host.

End App.

(** ** The contact form *)

Module ContactForm.

Definition initialFormData : obj :=
  {[ "name" := VStr ""; "email" := VStr ""; "message" := VStr "" ]}.

(** [handleChange]: the input named [name] now holds [value]. *)
Definition handleChange (name value : string) (formData : obj) : obj :=
  <[name := VStr value]> formData.

(** [/\S+@\S+\.\S+/.test(email)].  The pattern is not anchored: it
    matches when some '@' has a character that is not white space before
    it and, after it, one or more such characters, a '.', and one more
    such character. *)
Definition starts_non_space (s : string) : bool :=
  match s with
  | String c _ => negb (is_white_space c)
  | EmptyString => false
  end.

(** [\S+\.\S+] at the head of [s]; [some] tells that a character of the
    first [\S+] has been read. *)
Fixpoint domain_matches (some : bool) (s : string) : bool :=
  match s with
  | EmptyString => false
  | String c s' =>
      negb (is_white_space c)
      && ((some && Ascii.eqb c "." && starts_non_space s') || domain_matches true s')
  end.

(** The search for the '@'; [before] tells that the character before is
    not white space. *)
Fixpoint pattern_test (before : bool) (s : string) : bool :=
  match s with
  | EmptyString => false
  | String c s' =>
      (before && Ascii.eqb c "@" && domain_matches false s')
      || pattern_test (negb (is_white_space c)) s'
  end.

Definition email_pattern_test (email : string) : bool := pattern_test false email.

(** [validateForm]: [.trim()] is called on each field, which only a
    string has. *)
Definition validateForm (formData : obj) : completion (gmap string string) :=
  match prop formData "name" with
  | VStr name =>
      let errors : gmap string string :=
        if String.eqb (trim name) "" then <["name" := "Name is required"]> ∅ else ∅ in
      match prop formData "email" with
      | VStr email =>
          let errors : gmap string string :=
            if String.eqb (trim email) "" then <["email" := "Email is required"]> errors
            else if negb (email_pattern_test email)
                 then <["email" := "Please enter a valid email address"]> errors
                 else errors in
          match prop formData "message" with
          | VStr message =>
              Normal
                (if String.eqb (trim message) ""
                 then <["message" := "Message is required"]> errors
                 else if (String.length message <? 10)%nat
                      then <["message" := "Message must be at least 10 characters"]> errors
                      else errors)
          | _ => Throw TypeError
          end
      | _ => Throw TypeError
      end
  | _ => Throw TypeError
  end.

(** How [handleSubmit] ends: with the errors notice, with [status]
    'success' and the text shown, or with [status] 'error'. *)
Inductive submitted : Type :=
  | Rejected
  | Success (text : value)
  | Error.

Section Host.

Variable JSON_stringify : list obj → string.
Variable quota_exceeded : gmap string string → string → string → bool.

(** [handleSubmit], with the form data it leaves. *)
Definition handleSubmit (r : readings) (formData : obj) : M (submitted * obj) :=
  let! errors := lift (validateForm formData) in
  if (0 <? size errors)%nat then ret (Rejected, formData)
  else
    try_catch
      (let! result := ProjectService.contact JSON_stringify quota_exceeded r formData in
       ret (Success (or_ (prop result "message")
                       (VStr "Message sent successfully! I will get back to you soon.")),
            initialFormData))
      (fun _ => ret (Error, formData)).

End Host.

End ContactForm.

(** ** The words of the specification *)

Module Spec.

(** Section 3: [read] is a boolean. *)
Definition read_is_boolean (c : obj) : Prop := ∃ b, prop c "read" = VBool b.

(** "the number of contact messages whose read field is false" *)
Definition unread (cs : list obj) : nat :=
  length (List.filter (fun c => strict_eq (prop c "read") (VBool false)) cs).

(** The selectors of the contact filter and what each one selects:
    all -> everything; new -> read is false; read -> read === true and
    status !== 'replied'; replied -> status === 'replied'. *)
Inductive selector : Type := All | New | Read | Replied.

Definition selector_name (s : selector) : string :=
  match s with
  | All => "all"
  | New => "new"
  | Read => "read"
  | Replied => "replied"
  end.

Definition selects (s : selector) (c : obj) : bool :=
  match s with
  | All => true
  | New => strict_eq (prop c "read") (VBool false)
  | Read => strict_eq (prop c "read") (VBool true)
            && negb (strict_eq (prop c "status") (VStr "replied"))
  | Replied => strict_eq (prop c "status") (VStr "replied")
  end.

End Spec.

(** ** A host and inputs for the examples *)

Module Demo.

(** A host for the examples.  [JSON.parse] is given on the JSON texts
    listed; the other texts that the examples store are not JSON, and
    on them it throws.  [JSON.stringify] abbreviates a collection to the
    ids of its records, between brackets.  Writes never exceed the quota;
    [new Date] is given on the dates of the examples. *)
Definition quoted (s : string) : string :=
  String (ascii_of_nat 34) (s ++ String (ascii_of_nat 34) EmptyString).

(** The JSON text of an array with one record, which has the id [id]
    and nothing else. *)
Definition one_record_text (id : string) : string :=
  "[{" ++ quoted "_id" ++ ":" ++ quoted id ++ "}]".

Definition JSON_parse (text : string) : completion parsed :=
  if String.eqb text "[]" then Normal (Records [])
  else if String.eqb text (one_record_text "c1")
       then Normal (Records [ ({[ "_id" := VStr "c1" ]} : obj) ])
  else if String.eqb text "null" then Normal (NotRecords JNull)
  else if String.eqb text "{}" then Normal (NotRecords (JObj []))
  else if String.eqb text "42" then Normal (NotRecords (JNum 42))
  else Throw SyntaxError.

Definition id_text (p : obj) : string :=
  match prop p "_id" with
  | VStr s => s
  | _ => "?"
  end.

Definition JSON_stringify (records : list obj) : string :=
  "[" ++ String.concat "," (List.map id_text records) ++ "]".

Definition quota_exceeded (items : gmap string string) (key text : string) : bool := false.

Definition new_Date (v : value) : option Z :=
  match v with
  | VStr s =>
      if String.eqb s "2024-01-15T00:00:00.000Z" then Some 1705276800000
      else if String.eqb s "2024-02-20T00:00:00.000Z" then Some 1708387200000
      else if String.eqb s "2024-03-10T00:00:00.000Z" then Some 1710028800000
      else None
  | _ => None
  end.

Definition empty_storage : storage := Available ∅.

(** The service on first use: nothing stored yet. *)
Definition fresh : world := World INITIAL_PROJECTS [] empty_storage.

Definition now : readings :=
  Readings "2025-06-01T10:00:00.000Z" "2025-06-01T10:00:00.001Z" "1748772000000" "k3j9x2m1q".
Definition later : readings :=
  Readings "2025-06-01T11:00:00.000Z" "2025-06-01T11:00:00.001Z" "1748775600000" "a8s7d6f5g".
Definition latest : readings :=
  Readings "2025-06-01T12:00:00.000Z" "2025-06-01T12:00:00.001Z" "1748779200000" "z1x2c3v4b".

Definition id_of (r : readings) : value := VStr ("c" ++ Date_now r ++ Math_random r).

Definition visitor : obj :=
  {[ "name" := VStr "Ada"; "email" := VStr "ada@example.com"; "message" := VStr "Hello" ]}.

(** A stored project with images. *)
Definition shop : obj :=
  {[ "_id" := VStr "p7";
     "title" := VStr "Shop";
     "description" := VStr "An online shop.";
     "technologies" := VArr ["React"];
     "projectImage" := VStr "blob:shop.png";
     "bannerImage" := VStr "blob:banner.png";
     "createdAt" := VStr "2024-01-15T00:00:00.000Z" ]}.

(** An update that carries the id, a title and the technologies only. *)
Definition retitle : obj :=
  {[ "_id" := VStr "p7"; "title" := VStr "X"; "technologies" := VStr "React, Node.js" ]}.

(** The update of the specification's example: id and title only. *)
Definition title_only : obj := {[ "_id" := VStr "p7"; "title" := VStr "X" ]}.

Definition with_shop : world := World [shop] [] empty_storage.

(** A visitor's message, submitted on first use and marked as replied. *)
Definition replied_world : world :=
  snd (ProjectService.calls JSON_stringify quota_exceeded
         [ProjectService.Call_contact now visitor;
          ProjectService.Call_markAsReplied (id_of now)] fresh).

(** The example of the specification: three messages, one marked read,
    then an unread one deleted. *)
Definition three_one_read_one_deleted : list ProjectService.contact_call :=
  [ProjectService.Call_contact now visitor;
   ProjectService.Call_contact later visitor;
   ProjectService.Call_contact latest visitor;
   ProjectService.Call_markAsRead (id_of later);
   ProjectService.Call_deleteContact (id_of now)].

(** Storage that holds a text that is not JSON under the project key and
    a one-message array under the contact key. *)
Definition half_readable : world :=
  World [] [] (Available {[ "portfolio-projects" := "[{oops";
                            "portfolio-contacts" := one_record_text "c1" ]}).

(** Storage that holds the JSON text of [null] under the project key. *)
Definition holds_null : world :=
  World [] [] (Available {[ "portfolio-projects" := "null" ]}).

(** An unread, a read and a replied message. *)
Definition unread_message : obj :=
  {[ "_id" := VStr "c1"; "read" := VBool false; "status" := VStr "new" ]}.

Definition seen_message : obj :=
  {[ "_id" := VStr "c2"; "read" := VBool true; "status" := VStr "read" ]}.

Definition answered_message : obj :=
  {[ "_id" := VStr "c3"; "read" := VBool true; "status" := VStr "replied" ]}.

End Demo.

(** ** More inputs for the examples *)

Module Samples.

Import Demo.

(** [new URL] accepts text that starts with http; single values are
    written and read as JSON does for booleans. *)
Definition URL_accepts (v : value) : bool :=
  match v with
  | VStr s => String.prefix "http" s
  | _ => false
  end.

Definition JSON_stringify_value (v : value) : string :=
  match v with
  | VBool true => "true"
  | VBool false => "false"
  | _ => "null"
  end.

Definition JSON_parse_value (text : string) : completion value :=
  if String.eqb text "true" then Normal (VBool true)
  else if String.eqb text "false" then Normal (VBool false)
  else if String.eqb text "null" then Normal VNull
  else Throw SyntaxError.

(** [JSON.stringify] on records that hold an id and nothing else. *)
Definition JSON_stringify_ids (records : list obj) : string :=
  "[" ++ String.concat ","
           (List.map (fun p => "{" ++ quoted "_id" ++ ":" ++ quoted (id_text p) ++ "}")
              records)
      ++ "]".

(** A new project as the form sends it. *)
Definition new_project : obj :=
  {[ "title" := VStr "Compiler";
     "description" := VStr "A small compiler.";
     "technologies" := VStr "OCaml, Rocq" ]}.

(** One message, as read back from storage. *)
Definition one_message : world :=
  World [] [ ({[ "_id" := VStr "c1" ]} : obj) ] empty_storage.

Definition blocked : world := World INITIAL_PROJECTS [] Blocked.

(** Two messages with dates that the host of the examples reads. *)
Definition dated_messages : world :=
  World []
    [ ({[ "_id" := VStr "c1"; "createdAt" := VStr "2024-01-15T00:00:00.000Z" ]} : obj);
      ({[ "_id" := VStr "c2"; "createdAt" := VStr "2024-03-10T00:00:00.000Z" ]} : obj) ]
    empty_storage.

(** Two projects as in the specification's example. *)
Definition two_projects : list obj :=
  [ ({[ "_id" := VStr "a"; "title" := VStr "Shop"; "description" := VStr "A shop";
        "technologies" := VArr ["React"] ]} : obj);
    ({[ "_id" := VStr "b"; "title" := VStr "Chat"; "description" := VStr "A chat";
        "technologies" := VArr ["Node"] ]} : obj) ].

(** A project without a title. *)
Definition untitled : obj :=
  {[ "_id" := VStr "u"; "description" := VStr "No title"; "technologies" := VArr [] ]}.

(** A visitor who tries the dashboard and a wrong password. *)
Definition visit : list App.event :=
  [App.navigate "admin"; App.handleAdminAccessAttempt;
   App.PasswordModal_handleSubmit "guess"; App.PasswordModal_onClose;
   App.navigate "admin"].

Definition logged_out : App.state := App.State "home" (VBool false) false empty_storage.

(** Whole numbers are written in decimal. *)
Definition Number_toString (n : Z) : string :=
  DecimalString.NilZero.string_of_int (Z.to_int n).

(** A host that also reads the dates that the readings [now] stamp. *)
Definition new_Date_2025 (v : value) : option Z :=
  match v with
  | VStr s =>
      if String.eqb s "2025-06-01T10:00:00.000Z" then Some 1748772000000
      else if String.eqb s "2025-06-01T10:00:00.001Z" then Some 1748772000001
      else new_Date v
  | _ => None
  end.

(** An unread, a read and a replied message. *)
Definition inbox : list obj := [unread_message; seen_message; answered_message].

(** The contact form as a visitor fills it. *)
Definition letter : obj :=
  ContactForm.handleChange "message" "Hello from Ada."
    (ContactForm.handleChange "email" "ada@example.com"
       (ContactForm.handleChange "name" "Ada" ContactForm.initialFormData)).

(** The form filled for a new project, and submitted. *)
Definition filled : obj :=
  ProjectForm.handleChange "technologies" "OCaml, Rocq"
    (ProjectForm.handleChange "description" "A small compiler."
       (ProjectForm.handleChange "title" "Compiler" ProjectForm.initialFormState)).

End Samples.

(** ** Properties *)

Section Properties.

Variable JSON_parse : string → completion parsed.
Variable JSON_stringify : list obj → string.
Variable quota_exceeded : gmap string string → string → string → bool.
Variable new_Date : value → option Z.

Local Abbreviation loadFromStorage := (ProjectService.loadFromStorage JSON_parse).
Local Abbreviation loadContactsFromStorage := (ProjectService.loadContactsFromStorage JSON_parse).
Local Abbreviation saveToStorage := (ProjectService.saveToStorage JSON_stringify quota_exceeded).
Local Abbreviation saveContactsToStorage :=
  (ProjectService.saveContactsToStorage JSON_stringify quota_exceeded).
Local Abbreviation persisted := (ProjectService.persisted quota_exceeded).
Local Abbreviation fetchAll := (ProjectService.fetchAll new_Date).
Local Abbreviation by_createdAt := (ProjectService.by_createdAt new_Date).
Local Abbreviation save := (ProjectService.save JSON_stringify quota_exceeded).
Local Abbreviation delete := (ProjectService.delete JSON_stringify quota_exceeded).
Local Abbreviation contact := (ProjectService.contact JSON_stringify quota_exceeded).
Local Abbreviation markAsRead := (ProjectService.markAsRead JSON_stringify quota_exceeded).
Local Abbreviation markAsReplied := (ProjectService.markAsReplied JSON_stringify quota_exceeded).
Local Abbreviation deleteContact := (ProjectService.deleteContact JSON_stringify quota_exceeded).
Local Abbreviation call := (ProjectService.call JSON_stringify quota_exceeded).
Local Abbreviation calls := (ProjectService.calls JSON_stringify quota_exceeded).
Local Abbreviation getUnreadCount := ProjectService.getUnreadCount.
Local Abbreviation has_id := ProjectService.has_id.
Local Abbreviation technologies_of := ProjectService.technologies_of.
Local Abbreviation projectData_of := ProjectService.projectData_of.

(** *** The vocabulary of the properties *)

(** The storage after [saveToStorage] and [saveContactsToStorage], when the
    collection written is [ps] (or [cs]) and the storage before is [st]. *)
Definition projects_text (ps : list obj) (st : storage) : storage :=
  persisted "portfolio-projects" (JSON_stringify ps) st.

Definition contacts_text (cs : list obj) (st : storage) : storage :=
  persisted "portfolio-contacts" (JSON_stringify cs) st.

(** The callbacks that [markAsRead] and [markAsReplied] map over the
    contacts. *)
Definition mark_read (contactId : value) (c : obj) : obj :=
  if has_id contactId c then <["status" := VStr "read"]> (<["read" := VBool true]> c) else c.

Definition mark_replied (contactId : value) (c : obj) : obj :=
  if has_id contactId c then <["status" := VStr "replied"]> c else c.

(** The record that [contact] inserts and the object it returns. *)
Definition contactData_of (r : readings) (data : obj) : obj :=
  <["status" := VStr "new"]>
    (<["read" := VBool false]>
       (<["createdAt" := VStr (toISOString_1 r)]>
          (<["_id" := VStr ("c" ++ Date_now r ++ Math_random r)]> data))).

Definition acknowledgement (r : readings) : obj :=
  {[ "success" := VBool true;
     "message" := VStr "Thank you for your message! I will get back to you soon.";
     "contactId" := VStr ("c" ++ Date_now r ++ Math_random r) ]}.

(** The text under [key], if storage can be read and holds one. *)
Definition stored_under (key : string) (st : storage) : option string :=
  match st with
  | Blocked => None
  | Available items => items !! key
  end.

(** The text is the JSON of a collection. *)
Definition encodes_collection (text : string) : Prop :=
  ∃ collection, JSON_parse text = Normal (Records collection).

(** The contract of [load(key, fallback)] as section 4.1 words it, for a
    loader [load] run in the world [w]: a collection is returned in
    every case, and it is the fallback whenever the stored value is
    absent, unreadable or malformed, that is, anything but the JSON of
    a collection. *)
Definition load_as_specified (load : M parsed) (key : string) (fallback : list obj)
    (w : world) : Prop :=
  (* never raises outward, and returns a collection *)
  (∃ collection, load w = (Normal (Records collection), w))
  (* the deserialized collection *)
  ∧ (∀ text collection,
       stored_under key (localStorage w) = Some text → text ≠ "" →
       JSON_parse text = Normal (Records collection) →
       load w = (Normal (Records collection), w))
  (* unreadable *)
  ∧ (localStorage w = Blocked → load w = (Normal (Records fallback), w))
  (* absent *)
  ∧ (stored_under key (localStorage w) = None → load w = (Normal (Records fallback), w))
  (* malformed *)
  ∧ (∀ text,
       stored_under key (localStorage w) = Some text →
       ¬ encodes_collection text →
       load w = (Normal (Records fallback), w)).

(** The contract that the loaders keep: as above, with malformed read
    as text that [JSON.parse] does not accept.  The shape of what
    [JSON.parse] returns is not tested: a text that is JSON, but not of
    a collection, is returned as the value it denotes. *)
Definition load_contract (load : M parsed) (key : string) (fallback : list obj)
    (w : world) : Prop :=
  (* never raises outward *)
  (∃ returned, load w = (Normal returned, w))
  (* the deserialized collection *)
  ∧ (∀ text collection,
       stored_under key (localStorage w) = Some text → text ≠ "" →
       JSON_parse text = Normal (Records collection) →
       load w = (Normal (Records collection), w))
  (* any other JSON value, as it is *)
  ∧ (∀ text j,
       stored_under key (localStorage w) = Some text → text ≠ "" →
       JSON_parse text = Normal (NotRecords j) →
       load w = (Normal (NotRecords j), w))
  (* unreadable *)
  ∧ (localStorage w = Blocked → load w = (Normal (Records fallback), w))
  (* absent *)
  ∧ (stored_under key (localStorage w) = None → load w = (Normal (Records fallback), w))
  ∧ (stored_under key (localStorage w) = Some "" → load w = (Normal (Records fallback), w))
  (* malformed: not JSON *)
  ∧ (∀ text e,
       stored_under key (localStorage w) = Some text →
       JSON_parse text = Throw e →
       load w = (Normal (Records fallback), w)).

(** The fields that the object literal of [projectData] sets after the
    spread of the input. *)
Definition written_by_save : list string :=
  ["technologies"; "updatedAt"; "projectImage"; "bannerImage"].

(** The callback that the update branch of [save] maps over the projects. *)
Definition merge_into (projectData : obj) (id : value) (p : obj) : obj :=
  if has_id id p then spread2 p projectData else p.

(** No record of the collection has an [_id] that is [=== id]. *)
Definition absent (id : value) (records : list obj) : Prop :=
  Forall (fun p => has_id id p = false) records.

(** The time value of a record's [createdAt]. *)
Definition created (p : obj) : option Z := new_Date (prop p "createdAt").

(** [a] may stand before [b] in a list that has the newest first. *)
Definition newer_first (a b : obj) : Prop :=
  match created a, created b with
  | Some ta, Some tb => tb ≤ ta
  | _, _ => False
  end.

Example split_ex : split "," "React, Node ,,x" = ["React"; " Node "; ""; "x"].
Proof. reflexivity. Qed.

Example split_empty : split "," "" = [""].
Proof. reflexivity. Qed.

Example trim_ex : trim "  Node js  " = "Node js".
Proof. reflexivity. Qed.

Example technologies_of_text :
  ProjectService.technologies_of (VStr "React, Node.js, , Stripe ")
  = Normal (VArr ["React"; "Node.js"; "Stripe"]).
Proof. reflexivity. Qed.

(** *** Facts about values and arrays *)

Lemma strict_eq_true a b : strict_eq a b = true → a = b.
Proof.
  destruct a, b; simpl; try discriminate; intros H; try reflexivity.
  - apply Bool.eqb_prop in H. by subst.
  - apply Z.eqb_eq in H. by subst.
  - apply String.eqb_eq in H. by subst.
  - apply Pos.eqb_eq in H. by subst.
Qed.

Lemma strict_eq_sym a b : strict_eq a b = strict_eq b a.
Proof.
  destruct a, b; simpl; try reflexivity.
  - by destruct b, b0.
  - apply Z.eqb_sym.
  - apply String.eqb_sym.
  - apply Pos.eqb_sym.
Qed.

Lemma strict_eq_self a b : strict_eq a b = true → strict_eq b b = true.
Proof. intros H. pose proof (strict_eq_true _ _ H) as ->. exact H. Qed.

Lemma truthy_prop_Some (o : obj) k : truthy (prop o k) = true → o !! k = Some (prop o k).
Proof. unfold prop. destruct (o !! k); simpl; [done | discriminate]. Qed.

Lemma filter_all_true {A} (f : A → bool) (l : list A) :
  Forall (fun x => f x = true) l → List.filter f l = l.
Proof.
  induction 1 as [| x l Hx _ IH]; simpl; [done |].
  by rewrite Hx, IH.
Qed.

Lemma filter_ext_Forall {A} (f g : A → bool) (l : list A) :
  Forall (fun x => f x = g x) l → List.filter f l = List.filter g l.
Proof.
  induction 1 as [| x l Hx _ IH]; simpl; [done |].
  by rewrite Hx, IH.
Qed.

Lemma map_id_Forall {A} (f : A → A) (l : list A) :
  Forall (fun x => f x = x) l → List.map f l = l.
Proof.
  induction 1 as [| x l Hx _ IH]; simpl; [done |].
  by rewrite Hx, IH.
Qed.

Lemma filter_idem {A} (f : A → bool) (l : list A) :
  List.filter f (List.filter f l) = List.filter f l.
Proof.
  induction l as [| x l IH]; simpl; [done |].
  destruct (f x) eqn:E; simpl; [by rewrite E, IH | done].
Qed.

(** *** Array.prototype.sort returns the same elements, in order *)

Section Sorting.
Context {A : Type} (comparefn : A → A → option Z).

Lemma insert_sorted_perm x l : Permutation (insert_sorted comparefn x l) (x :: l).
Proof.
  induction l as [| y l IH]; simpl; [done |].
  destruct (SortCompare comparefn x y <=? 0); [done |].
  rewrite IH. apply perm_swap.
Qed.

Lemma sort_perm l : Permutation (sort comparefn l) l.
Proof.
  induction l as [| x l IH]; simpl; [done |].
  fold (sort comparefn l). rewrite insert_sorted_perm. by constructor.
Qed.

(** When the comparison function is the difference of a key, later minus
    earlier argument, the result descends along the key. *)
Variable key : A → Z.

Local Abbreviation descends := (descends key).

Lemma insert_sorted_descends x l :
  Forall (fun y => comparefn x y = Some (key y - key x)) l →
  StronglySorted descends l →
  StronglySorted descends (insert_sorted comparefn x l).
Proof.
  induction l as [| y l IH]; intros Hc Hs; simpl.
  - repeat constructor.
  - inversion Hc as [| ? ? Hy Hc']; subst.
    inversion Hs as [| ? ? Hs' Hall]; subst.
    unfold SortCompare. rewrite Hy. simpl.
    destruct (Z.leb_spec (key y - key x) 0) as [Hle | Hgt].
    + constructor; [done |]. constructor.
      * unfold descends. lia.
      * eapply Forall_impl; [exact Hall |]. unfold descends. simpl. intros; lia.
    + constructor; [by apply IH |].
      rewrite (insert_sorted_perm x l). constructor; [| done].
      unfold descends. lia.
Qed.

Lemma sort_descends l :
  (∀ x y, In x l → In y l → comparefn x y = Some (key y - key x)) →
  StronglySorted descends (sort comparefn l).
Proof.
  induction l as [| x l IH]; intros Hc; simpl; [constructor |].
  fold (sort comparefn l). apply insert_sorted_descends.
  - apply Forall_forall. intros y Hy. apply Hc; [by left |].
    right. apply (Permutation_in _ (sort_perm l)). by apply list_elem_of_In.
  - apply IH. intros a b Ha Hb. apply Hc; by right.
Qed.

End Sorting.

(** *** What each method computes *)

Lemma saveToStorage_eq w :
  saveToStorage w
  = (Normal tt, World (projects w) (contacts w) (projects_text (projects w) (localStorage w))).
Proof.
  destruct w as [ps cs [| items]];
    unfold ProjectService.saveToStorage, try_catch, bind, get_world,
      ProjectService.localStorage_setItem, projects_text, ProjectService.persisted;
    simpl; [done |].
  by destruct (quota_exceeded _ _ _).
Qed.

Lemma saveContactsToStorage_eq w :
  saveContactsToStorage w
  = (Normal tt, World (projects w) (contacts w) (contacts_text (contacts w) (localStorage w))).
Proof.
  destruct w as [ps cs [| items]];
    unfold ProjectService.saveContactsToStorage, try_catch, bind, get_world,
      ProjectService.localStorage_setItem, contacts_text, ProjectService.persisted;
    simpl; [done |].
  by destruct (quota_exceeded _ _ _).
Qed.

Ltac run_method :=
  unfold bind, delay, ret, get_world, set_projects, set_contacts, lift; simpl;
  rewrite ?saveToStorage_eq, ?saveContactsToStorage_eq; simpl.

Lemma delete_eq id w :
  let ps := List.filter (fun p => negb (has_id id p)) (projects w) in
  delete id w = (Normal tt, World ps (contacts w) (projects_text ps (localStorage w))).
Proof. unfold ProjectService.delete. by run_method. Qed.

Lemma markAsRead_eq id w :
  let cs := List.map (mark_read id) (contacts w) in
  markAsRead id w = (Normal true, World (projects w) cs (contacts_text cs (localStorage w))).
Proof. unfold ProjectService.markAsRead. by run_method. Qed.

Lemma markAsReplied_eq id w :
  let cs := List.map (mark_replied id) (contacts w) in
  markAsReplied id w = (Normal true, World (projects w) cs (contacts_text cs (localStorage w))).
Proof. unfold ProjectService.markAsReplied. by run_method. Qed.

Lemma deleteContact_eq id w :
  let cs := List.filter (fun c => negb (has_id id c)) (contacts w) in
  deleteContact id w = (Normal true, World (projects w) cs (contacts_text cs (localStorage w))).
Proof. unfold ProjectService.deleteContact. by run_method. Qed.

Lemma contact_eq r data w :
  let cs := contactData_of r data :: contacts w in
  contact r data w
  = (Normal (acknowledgement r), World (projects w) cs (contacts_text cs (localStorage w))).
Proof.
  unfold ProjectService.contact. run_method.
  unfold acknowledgement, prop. rewrite !lookup_insert_ne by done.
  by rewrite lookup_insert_eq.
Qed.

(** *** The Store Adapter *)

Lemma load_eq key fallback w :
  try_catch
    (let! stored := ProjectService.localStorage_getItem key in
     ProjectService.parse_or JSON_parse stored fallback)
    (fun _ => ret (Records fallback)) w
  = (Normal match stored_under key (localStorage w) with
            | Some text =>
                if String.eqb text "" then Records fallback
                else match JSON_parse text with
                     | Normal returned => returned
                     | Throw _ => Records fallback
                     end
            | None => Records fallback
            end, w).
Proof.
  unfold try_catch, bind, ProjectService.localStorage_getItem, stored_under.
  destruct (localStorage w) as [| items]; [done |].
  unfold ProjectService.parse_or.
  destruct (items !! key) as [text |]; [| done].
  destruct (String.eqb text ""); [done |].
  unfold lift. by destruct (JSON_parse text).
Qed.

Lemma load_contract_holds key fallback w :
  load_contract
    (try_catch
       (let! stored := ProjectService.localStorage_getItem key in
        ProjectService.parse_or JSON_parse stored fallback)
       (fun _ => ret (Records fallback)))
    key fallback w.
Proof.
  unfold load_contract. rewrite !load_eq.
  repeat split.
  - eauto.
  - intros text collection -> Hne ->.
    apply String.eqb_neq in Hne. by rewrite Hne.
  - intros text j -> Hne ->.
    apply String.eqb_neq in Hne. by rewrite Hne.
  - by intros ->.
  - by intros ->.
  - by intros ->.
  - intros text e -> ->. by destruct (String.eqb text "").
Qed.

(** C7, as amended.  The Store Adapter's load never throws and leaves
    the world as it is.  It returns the deserialized collection when the
    text stored under the key is the JSON of a collection, and the
    fallback (the initial projects under the project key, the empty list
    under the contact key) when storage cannot be read, when nothing (or
    the empty text) is stored under the key, and when the text is not
    JSON, so that [JSON.parse] throws.  A text that is JSON of anything
    but a collection is returned as the value it denotes, not replaced
    by the fallback. *)
Theorem load_returns_collection_or_fallback (w : world) :
  load_contract loadFromStorage "portfolio-projects" INITIAL_PROJECTS w
  ∧ load_contract loadContactsFromStorage "portfolio-contacts" [] w.
Proof.
  split.
  - apply (load_contract_holds "portfolio-projects" INITIAL_PROJECTS).
  - apply (load_contract_holds "portfolio-contacts" []).
Qed.

(** *** save *)

Lemma projectData_other r project t k :
  k ∉ written_by_save → projectData_of r project t !! k = project !! k.
Proof.
  intros Hk. unfold ProjectService.projectData_of.
  rewrite !lookup_insert_ne; [done | | | |];
    intros <-; apply Hk; unfold written_by_save;
    repeat first [apply list_elem_of_here | apply list_elem_of_further].
Qed.

Lemma projectData_id r project t :
  prop (projectData_of r project t) "_id" = prop project "_id".
Proof.
  unfold prop. rewrite projectData_other; [done |].
  unfold written_by_save. rewrite !elem_of_cons, elem_of_nil.
  intros [? | [? | [? | [? | []]]]]; discriminate.
Qed.

Lemma save_throws r project w e :
  technologies_of (prop project "technologies") = Throw e →
  save r project w = (Throw e, w).
Proof.
  intros H. unfold ProjectService.save, bind, delay, ret, lift. simpl. by rewrite H.
Qed.

Lemma save_update_eq r project w t :
  truthy (prop project "_id") = true →
  technologies_of (prop project "technologies") = Normal t →
  let projectData := projectData_of r project t in
  let ps := List.map (merge_into projectData (prop project "_id")) (projects w) in
  save r project w
  = (Normal (List.find (has_id (prop project "_id")) ps),
     World ps (contacts w) (projects_text ps (localStorage w))).
Proof.
  intros Hid Ht. unfold ProjectService.save, bind, delay, ret, lift. simpl.
  rewrite Ht, Hid. run_method.
  by rewrite projectData_id, Hid.
Qed.

Lemma save_create_eq r project w t :
  truthy (prop project "_id") = false →
  technologies_of (prop project "technologies") = Normal t →
  let newProject : obj :=
    <["createdAt" := VStr (toISOString_2 r)]>
      (<["_id" := VStr ("p" ++ Date_now r ++ Math_random r)]> (projectData_of r project t)) in
  let ps := newProject :: projects w in
  save r project w
  = (Normal (Some newProject), World ps (contacts w) (projects_text ps (localStorage w))).
Proof.
  intros Hid Ht. unfold ProjectService.save, bind, delay, ret, lift. simpl.
  rewrite Ht, Hid. run_method.
  by rewrite projectData_id, Hid.
Qed.

Lemma has_id_merged projectData id p :
  truthy id = true → prop projectData "_id" = id → has_id id p = true →
  has_id id (spread2 p projectData) = true.
Proof.
  intros Hid Hpd Hp. unfold ProjectService.has_id, spread2, prop.
  rewrite <- Hpd in Hid. apply truthy_prop_Some in Hid.
  rewrite (lookup_union_Some_l _ _ _ _ Hid). simpl. rewrite Hpd.
  unfold ProjectService.has_id in Hp. by apply strict_eq_self in Hp.
Qed.

Lemma find_merge_into projectData id ps :
  truthy id = true → prop projectData "_id" = id →
  List.find (has_id id) (List.map (merge_into projectData id) ps)
  = (fun p => spread2 p projectData) <$> List.find (has_id id) ps.
Proof.
  intros Hid Hpd. induction ps as [| p ps IH]; [done |].
  cbn [List.map List.find]. unfold merge_into at 1.
  destruct (has_id id p) eqn:E.
  - rewrite has_id_merged by done. unfold merge_into. by rewrite E.
  - by rewrite E.
Qed.

Lemma lookup_merge_into projectData id (ps : list obj) (i : nat) :
  List.map (merge_into projectData id) ps !! i = merge_into projectData id <$> ps !! i.
Proof. apply list_lookup_fmap. Qed.

Lemma technologies_of_accepts t :
  (∃ xs, t = VArr xs) ∨ (∃ s, t = VStr s) → ∃ t', technologies_of t = Normal t'.
Proof. intros [[xs ->] | [s ->]]; simpl; eauto. Qed.

Lemma find_none_Forall {A} (f : A → bool) (l : list A) :
  Forall (fun x => f x = false) l → List.find f l = None.
Proof. induction 1 as [| x l Hx _ IH]; simpl; [done |]. by rewrite Hx. Qed.

(** C9. An input whose [technologies] is neither an array nor a string
    makes [save] throw a TypeError before anything is inserted, merged or
    persisted: collections and storage are as they were. *)
Theorem save_without_technologies_throws (r : readings) (project : obj) (w : world) :
  (∀ xs, prop project "technologies" ≠ VArr xs) →
  (∀ s, prop project "technologies" ≠ VStr s) →
  save r project w = (Throw TypeError, w).
Proof.
  intros Harr Hstr. apply save_throws.
  destruct (prop project "technologies") eqn:E; try reflexivity.
  - by destruct (Hstr s).
  - by destruct (Harr xs).
Qed.

(** C10. An input with an id (truthy [_id]) that no record carries, and
    with [technologies] an array or a string: [save] leaves both
    collections as they are, writes the unchanged project collection to
    storage once more, and returns [undefined]. *)
Theorem save_unknown_id_returns_undefined (r : readings) (project : obj) (w : world) :
  truthy (prop project "_id") = true →
  (∃ xs, prop project "technologies" = VArr xs) ∨ (∃ s, prop project "technologies" = VStr s) →
  Forall (fun p => has_id (prop project "_id") p = false) (projects w) →
  save r project w
  = (Normal None,
     World (projects w) (contacts w) (projects_text (projects w) (localStorage w))).
Proof.
  intros Hid Htech Habsent.
  destruct (technologies_of_accepts _ Htech) as [t Ht].
  rewrite (save_update_eq r project w t Hid Ht). cbv zeta.
  rewrite map_id_Forall.
  - by rewrite find_none_Forall.
  - eapply Forall_impl; [exact Habsent |]. simpl. intros p Hp.
    unfold merge_into. by rewrite Hp.
Qed.

(** C1, as the code has it. An update input with the id of a stored
    project [P] (a truthy [_id]) and with [technologies] an array or a
    string. [save] replaces [P], in place, by [P] overlaid with
    [projectData]: the fields of the input, and four fields that every
    call writes, namely [technologies] (normalised), [updatedAt] (now),
    [projectImage] and [bannerImage] (the input's value when truthy, else
    [null]).  Every other field of [P] that the input does not carry is
    preserved, [createdAt] among them; records with another id and the
    contact collection are untouched; the record returned is the first
    stored record with that id, after the merge. *)
Theorem save_update_merges
    (r : readings) (project : obj) (w : world) (i : nat) (P : obj) (t : value) :
  truthy (prop project "_id") = true →
  technologies_of (prop project "technologies") = Normal t →
  projects w !! i = Some P →
  has_id (prop project "_id") P = true →
  ∃ (w' : world) (P' : obj) (returned : obj),
    save r project w = (Normal (Some returned), w')
    ∧ projects w' !! i = Some P'
    ∧ P' = spread2 P (projectData_of r project t)
    ∧ length (projects w') = length (projects w)
    ∧ contacts w' = contacts w
    (* the supplied fields *)
    ∧ (∀ k v, k ∉ written_by_save → project !! k = Some v → P' !! k = Some v)
    (* the fields every call writes *)
    ∧ P' !! "technologies" = Some t
    ∧ P' !! "updatedAt" = Some (VStr (toISOString_1 r))
    ∧ P' !! "projectImage" = Some (or_ (prop project "projectImage") VNull)
    ∧ P' !! "bannerImage" = Some (or_ (prop project "bannerImage") VNull)
    (* everything else is preserved *)
    ∧ (∀ k, k ∉ written_by_save → project !! k = None → P' !! k = P !! k)
    ∧ (project !! "createdAt" = None → P' !! "createdAt" = P !! "createdAt")
    (* the other records *)
    ∧ (∀ j Q, projects w !! j = Some Q → has_id (prop project "_id") Q = false →
              projects w' !! j = Some Q)
    (* the returned record *)
    ∧ List.find (has_id (prop project "_id")) (projects w') = Some returned
    ∧ (∃ P0, List.find (has_id (prop project "_id")) (projects w) = Some P0
             ∧ returned = spread2 P0 (projectData_of r project t))
    ∧ (List.find (has_id (prop project "_id")) (projects w) = Some P → returned = P').
Proof.
  intros Hid Ht HP HidP.
  set (pd := projectData_of r project t).
  set (id := prop project "_id") in *.
  assert (Hpd : prop pd "_id" = id) by apply projectData_id.
  assert (∃ P0, List.find (has_id id) (projects w) = Some P0) as [P0 HP0].
  { destruct (List.find (has_id id) (projects w)) as [P0 |] eqn:E; [eauto |].
    exfalso. apply list_elem_of_lookup_2, list_elem_of_In in HP.
    pose proof (find_none _ _ E _ HP) as Hno. congruence. }
  eexists _, (spread2 P pd), (spread2 P0 pd).
  split; [| split; [| split; [reflexivity |]]].
  - rewrite (save_update_eq r project w t Hid Ht). cbv zeta.
    fold pd. fold id. by rewrite find_merge_into, HP0.
  - simpl. rewrite lookup_merge_into, HP. simpl.
    unfold merge_into. by rewrite HidP.
  - simpl. repeat split.
    + by rewrite length_map.
    + intros k v Hk Hv. unfold spread2. apply lookup_union_Some_l.
      unfold pd. by rewrite projectData_other.
    + unfold spread2. apply lookup_union_Some_l. unfold pd, ProjectService.projectData_of.
      rewrite !lookup_insert_ne by done. apply lookup_insert_eq.
    + unfold spread2. apply lookup_union_Some_l. unfold pd, ProjectService.projectData_of.
      rewrite !lookup_insert_ne by done. apply lookup_insert_eq.
    + unfold spread2. apply lookup_union_Some_l. unfold pd, ProjectService.projectData_of.
      rewrite !lookup_insert_ne by done. apply lookup_insert_eq.
    + unfold spread2. apply lookup_union_Some_l. unfold pd, ProjectService.projectData_of.
      apply lookup_insert_eq.
    + intros k Hk Hnone. unfold spread2. apply lookup_union_r.
      unfold pd. by rewrite projectData_other.
    + intros Hnone. unfold spread2. apply lookup_union_r.
      unfold pd. rewrite projectData_other; [done |].
      unfold written_by_save. rewrite !elem_of_cons, elem_of_nil.
      intros [? | [? | [? | [? | []]]]]; discriminate.
    + intros j Q HQ HidQ. rewrite lookup_merge_into, HQ. simpl.
      unfold merge_into. by rewrite HidQ.
    + by rewrite find_merge_into, HP0.
    + eauto.
    + intros HPfirst. congruence.
Qed.

(** *** Mutations with an unknown id *)

Lemma filter_absent id records :
  absent id records → List.filter (fun p => negb (has_id id p)) records = records.
Proof.
  intros H. apply filter_all_true.
  eapply Forall_impl; [exact H |]. simpl. by intros p ->.
Qed.

Lemma mark_read_absent id records :
  absent id records → List.map (mark_read id) records = records.
Proof.
  intros H. apply map_id_Forall.
  eapply Forall_impl; [exact H |]. simpl. intros p Hp. unfold mark_read. by rewrite Hp.
Qed.

Lemma mark_replied_absent id records :
  absent id records → List.map (mark_replied id) records = records.
Proof.
  intros H. apply map_id_Forall.
  eapply Forall_impl; [exact H |]. simpl. intros p Hp. unfold mark_replied. by rewrite Hp.
Qed.

(** C6. With an id that no record of the collection carries, [delete],
    [markAsRead], [markAsReplied] and [deleteContact] complete normally and
    leave both collections as they are (the unchanged collection is written
    to storage once more).  Calling [delete] twice with the same id
    completes normally both times, and the collections after the second
    call are those after the first. *)
Theorem unknown_id_is_silent_noop (w : world) (id : value) :
  (absent id (projects w) →
     delete id w
     = (Normal tt, World (projects w) (contacts w)
                     (projects_text (projects w) (localStorage w))))
  ∧ (absent id (contacts w) →
       markAsRead id w
       = (Normal true, World (projects w) (contacts w)
                         (contacts_text (contacts w) (localStorage w)))
       ∧ markAsReplied id w
         = (Normal true, World (projects w) (contacts w)
                           (contacts_text (contacts w) (localStorage w)))
       ∧ deleteContact id w
         = (Normal true, World (projects w) (contacts w)
                           (contacts_text (contacts w) (localStorage w))))
  ∧ (∃ w1 w2,
       delete id w = (Normal tt, w1)
       ∧ delete id w1 = (Normal tt, w2)
       ∧ absent id (projects w1)
       ∧ projects w2 = projects w1
       ∧ contacts w2 = contacts w1).
Proof.
  split; [| split].
  - intros H. rewrite delete_eq. cbv zeta. by rewrite filter_absent.
  - intros H. rewrite markAsRead_eq, markAsReplied_eq, deleteContact_eq. cbv zeta.
    by rewrite mark_read_absent, mark_replied_absent, filter_absent.
  - eexists _, _. rewrite !delete_eq. cbv zeta. simpl.
    split; [reflexivity |]. split; [reflexivity |]. split; [| split; [| done]].
    + unfold absent. apply Forall_forall. intros p Hp.
      apply list_elem_of_In, filter_In in Hp as [_ Hp].
      by apply negb_true_iff in Hp.
    + apply filter_idem.
Qed.

(** *** The life of a contact message *)

Lemma contactData_fields r data :
  prop (contactData_of r data) "_id" = VStr ("c" ++ Date_now r ++ Math_random r)
  ∧ prop (contactData_of r data) "read" = VBool false
  ∧ prop (contactData_of r data) "status" = VStr "new".
Proof.
  unfold contactData_of, prop. repeat split.
  - rewrite !lookup_insert_ne by done. by rewrite lookup_insert_eq.
  - rewrite lookup_insert_ne by done. by rewrite lookup_insert_eq.
  - by rewrite lookup_insert_eq.
Qed.

Lemma mark_read_fields id c :
  has_id id c = true →
  prop (mark_read id c) "_id" = prop c "_id"
  ∧ prop (mark_read id c) "read" = VBool true
  ∧ prop (mark_read id c) "status" = VStr "read".
Proof.
  intros H. unfold mark_read, prop. rewrite H. repeat split.
  - by rewrite !lookup_insert_ne.
  - rewrite lookup_insert_ne by done. by rewrite lookup_insert_eq.
  - by rewrite lookup_insert_eq.
Qed.

Lemma mark_replied_fields id c :
  has_id id c = true →
  prop (mark_replied id c) "_id" = prop c "_id"
  ∧ prop (mark_replied id c) "read" = prop c "read"
  ∧ prop (mark_replied id c) "status" = VStr "replied".
Proof.
  intros H. unfold mark_replied, prop. rewrite H. repeat split.
  - by rewrite !lookup_insert_ne.
  - by rewrite lookup_insert_ne.
  - by rewrite lookup_insert_eq.
Qed.

Lemma has_id_text s (c : obj) : prop c "_id" = VStr s → has_id (VStr s) c = true.
Proof. unfold ProjectService.has_id. intros ->. simpl. apply String.eqb_refl. Qed.

(** C3. The message created by [contact] is the first of the collection
    and carries the id handed back to the caller; it has [read] false and
    [status] 'new'.  After [markAsRead] on that id it has [read] true and
    [status] 'read'; after [markAsReplied] on that id it has [status]
    'replied' and [read] still true. *)
Theorem contact_lifecycle (r : readings) (data : obj) (w : world) :
  ∃ (ack : obj) (w1 w2 w3 : world) (c1 c2 c3 : obj),
    contact r data w = (Normal ack, w1)
    ∧ contacts w1 = c1 :: contacts w
    ∧ prop c1 "_id" = prop ack "contactId"
    ∧ prop c1 "read" = VBool false
    ∧ prop c1 "status" = VStr "new"
    ∧ markAsRead (prop ack "contactId") w1 = (Normal true, w2)
    ∧ head (contacts w2) = Some c2
    ∧ prop c2 "_id" = prop ack "contactId"
    ∧ prop c2 "read" = VBool true
    ∧ prop c2 "status" = VStr "read"
    ∧ markAsReplied (prop ack "contactId") w2 = (Normal true, w3)
    ∧ head (contacts w3) = Some c3
    ∧ prop c3 "_id" = prop ack "contactId"
    ∧ prop c3 "status" = VStr "replied"
    ∧ prop c3 "read" = VBool true.
Proof.
  set (id := VStr ("c" ++ Date_now r ++ Math_random r)).
  assert (Hack : prop (acknowledgement r) "contactId" = id).
  { unfold acknowledgement, prop.
    rewrite !lookup_insert_ne by done. by rewrite lookup_singleton_eq. }
  destruct (contactData_fields r data) as (Hid1 & Hread1 & Hstatus1). fold id in Hid1.
  assert (H1 : has_id id (contactData_of r data) = true) by by apply has_id_text.
  destruct (mark_read_fields id _ H1) as (Hid2 & Hread2 & Hstatus2).
  assert (H2 : has_id id (mark_read id (contactData_of r data)) = true).
  { apply has_id_text. by rewrite Hid2. }
  destruct (mark_replied_fields id _ H2) as (Hid3 & Hread3 & Hstatus3).
  eexists (acknowledgement r), _, _, _, (contactData_of r data),
    (mark_read id (contactData_of r data)),
    (mark_replied id (mark_read id (contactData_of r data))).
  rewrite Hack.
  split; [apply contact_eq |]. cbv zeta.
  split; [reflexivity |].
  split; [done |]. split; [done |]. split; [done |].
  split; [apply markAsRead_eq |]. cbv zeta.
  split; [reflexivity |].
  split; [congruence |]. split; [done |]. split; [done |].
  split; [apply markAsReplied_eq |]. cbv zeta.
  split; [reflexivity |].
  split; [congruence |]. split; [done |]. congruence.
Qed.

(** *** The status 'replied' *)

Lemma save_contacts r project w : contacts (snd (save r project w)) = contacts w.
Proof.
  destruct (technologies_of (prop project "technologies")) as [t | e] eqn:Ht.
  - destruct (truthy (prop project "_id")) eqn:Hid.
    + by rewrite (save_update_eq r project w t Hid Ht).
    + by rewrite (save_create_eq r project w t Hid Ht).
  - by rewrite (save_throws r project w e Ht).
Qed.

(** C2, as the code has it. A message with [status] 'replied' keeps that
    status, or leaves the collection, under every method but [markAsRead]:
    [markAsReplied] keeps it in place with the status 'replied'; [contact]
    keeps it unchanged, one place further; [deleteContact] removes it when
    the id is its own and keeps it unchanged otherwise; [save] and [delete]
    do not touch the contact collection.  [markAsRead] with another id
    keeps it unchanged. *)
Theorem replied_kept_by_all_but_markAsRead (w : world) (i : nat) (c : obj) :
  contacts w !! i = Some c →
  prop c "status" = VStr "replied" →
  (∀ id, ∃ w' c',
     markAsReplied id w = (Normal true, w')
     ∧ contacts w' !! i = Some c'
     ∧ prop c' "status" = VStr "replied"
     ∧ prop c' "read" = prop c "read")
  ∧ (∀ r data, ∃ w' ack,
       contact r data w = (Normal ack, w') ∧ contacts w' !! S i = Some c)
  ∧ (∀ id, ∃ w',
       deleteContact id w = (Normal true, w')
       ∧ (∀ c', c' ∈ contacts w' → c' ∈ contacts w)
       ∧ (has_id id c = false → c ∈ contacts w')
       ∧ (has_id id c = true → c ∉ contacts w'))
  ∧ (∀ r project, contacts (snd (save r project w)) = contacts w)
  ∧ (∀ id, contacts (snd (delete id w)) = contacts w)
  ∧ (∀ id, has_id id c = false →
       ∃ w', markAsRead id w = (Normal true, w') ∧ contacts w' !! i = Some c).
Proof.
  intros Hc Hstatus. repeat split.
  - intros id. eexists _, (mark_replied id c).
    split; [apply markAsReplied_eq |]. cbv zeta. simpl.
    split; [by rewrite list_lookup_fmap, Hc |].
    unfold mark_replied, prop. destruct (has_id id c); [| done].
    rewrite lookup_insert_eq. by rewrite lookup_insert_ne.
  - intros r data. eexists _, _. split; [apply contact_eq | done].
  - intros id. eexists. split; [apply deleteContact_eq |]. cbv zeta. simpl.
    split; [| split].
    + intros c' Hc'. apply list_elem_of_In, filter_In in Hc' as [Hc' _].
      by apply list_elem_of_In.
    + intros Hid. apply list_elem_of_In, filter_In. split.
      * by apply list_elem_of_In, (list_elem_of_lookup_2 _ i).
      * by rewrite Hid.
    + intros Hid Hin. apply list_elem_of_In, filter_In in Hin as [_ Hin].
      by rewrite Hid in Hin.
  - intros r project. apply save_contacts.
  - intros id. by rewrite delete_eq.
  - intros id Hid. eexists.
    split; [apply markAsRead_eq |]. cbv zeta. simpl.
    rewrite list_lookup_fmap, Hc. simpl. unfold mark_read. by rewrite Hid.
Qed.

(** *** The unread count *)

Lemma unread_count_eq (cs : list obj) :
  Forall Spec.read_is_boolean cs →
  length (List.filter (fun contact => not_ (prop contact "read")) cs) = Spec.unread cs.
Proof.
  intros H. unfold Spec.unread. f_equal. apply filter_ext_Forall.
  eapply Forall_impl; [exact H |]. simpl. intros c [b ->]. by destruct b.
Qed.

Lemma mark_read_boolean id c : Spec.read_is_boolean c → Spec.read_is_boolean (mark_read id c).
Proof.
  intros H. destruct (has_id id c) eqn:E.
  - exists true. by destruct (mark_read_fields id c E) as (_ & -> & _).
  - unfold mark_read. by rewrite E.
Qed.

Lemma mark_replied_boolean id c :
  Spec.read_is_boolean c → Spec.read_is_boolean (mark_replied id c).
Proof.
  intros [b H]. destruct (has_id id c) eqn:E.
  - exists b. by destruct (mark_replied_fields id c E) as (_ & -> & _).
  - unfold mark_replied. rewrite E. by exists b.
Qed.

Lemma call_keeps_read_boolean (c : ProjectService.contact_call) (w : world) :
  Forall Spec.read_is_boolean (contacts w) →
  ∃ w', call c w = (Normal tt, w') ∧ Forall Spec.read_is_boolean (contacts w').
Proof.
  intros H. destruct c as [r data | id | id | id]; unfold ProjectService.call, bind.
  - rewrite contact_eq. eexists; split; [reflexivity |]. simpl.
    constructor; [| done]. exists false. apply contactData_fields.
  - rewrite markAsRead_eq. eexists; split; [reflexivity |]. simpl.
    apply Forall_fmap. eapply Forall_impl; [exact H |]. apply mark_read_boolean.
  - rewrite markAsReplied_eq. eexists; split; [reflexivity |]. simpl.
    apply Forall_fmap. eapply Forall_impl; [exact H |]. apply mark_replied_boolean.
  - rewrite deleteContact_eq. eexists; split; [reflexivity |]. simpl.
    apply Forall_forall. intros c Hc.
    apply list_elem_of_In, filter_In in Hc as [Hc _].
    rewrite Forall_forall in H. by apply H, list_elem_of_In.
Qed.

Lemma calls_keep_read_boolean (cs : list ProjectService.contact_call) (w : world) :
  Forall Spec.read_is_boolean (contacts w) →
  ∃ w', calls cs w = (Normal tt, w') ∧ Forall Spec.read_is_boolean (contacts w').
Proof.
  revert w. induction cs as [| c cs IH]; intros w H.
  - by exists w.
  - destruct (call_keeps_read_boolean c w H) as (w1 & Hcall & H1).
    destruct (IH w1 H1) as (w' & Hcalls & H').
    exists w'. split; [| done].
    cbn [ProjectService.calls]. unfold bind. by rewrite Hcall.
Qed.

(** C4. From a contact collection whose [read] fields are booleans (as
    every message made by [contact] and every message of the empty
    collection is), any sequence of [contact], [markAsRead],
    [markAsReplied] and [deleteContact] calls completes normally, and
    afterwards [getUnreadCount()] is the number of messages of the
    collection whose [read] is false. *)
Theorem unread_count_correct (cs : list ProjectService.contact_call) (w : world) :
  Forall Spec.read_is_boolean (contacts w) →
  ∃ w', calls cs w = (Normal tt, w')
        ∧ getUnreadCount w' = Spec.unread (contacts w').
Proof.
  intros H. destruct (calls_keep_read_boolean cs w H) as (w' & Hrun & H').
  exists w'. split; [done |]. by apply unread_count_eq.
Qed.

(** *** fetchAll *)

Lemma StronglySorted_within {A} (R R' : A → A → Prop) (l : list A) :
  (∀ a b, In a l → In b l → R a b → R' a b) →
  StronglySorted R l → StronglySorted R' l.
Proof.
  intros Himp Hs. induction Hs as [| a l Hs IH Hall]; constructor.
  - apply IH. intros x y Hx Hy. apply Himp; by right.
  - apply Forall_forall. intros b Hb. apply list_elem_of_In in Hb.
    apply Himp; [by left | by right |].
    rewrite Forall_forall in Hall. by apply Hall, list_elem_of_In.
Qed.

Lemma sorted_perm_unique {A} (R : A → A → Prop) (l1 l2 : list A) :
  (∀ a b, In a l1 → In b l1 → R a b → R b a → a = b) →
  StronglySorted R l1 → StronglySorted R l2 → Permutation l1 l2 → l1 = l2.
Proof.
  revert l2. induction l1 as [| a l1 IH]; intros l2 Hanti H1 H2 Hperm.
  - by apply Permutation_nil in Hperm.
  - destruct l2 as [| b l2]; [by apply Permutation_sym, Permutation_nil in Hperm |].
    apply StronglySorted_inv in H1 as [H1 Ha].
    apply StronglySorted_inv in H2 as [H2 Hb].
    rewrite Forall_forall in Ha, Hb.
    assert (a = b) as <-.
    { assert (Hain : In a (b :: l2)) by (apply (Permutation_in _ Hperm); by left).
      assert (Hbin : In b (a :: l1))
        by (apply (Permutation_in _ (Permutation_sym Hperm)); by left).
      destruct Hain as [-> | Hain]; [done |].
      destruct Hbin as [-> | Hbin]; [done |].
      apply Hanti; [by left | by right | |].
      - by apply Ha, list_elem_of_In.
      - by apply Hb, list_elem_of_In. }
    f_equal. apply IH; [| done | done | by apply Permutation_cons_inv in Hperm].
    intros x y Hx Hy. apply Hanti; by right.
Qed.

Lemma sort_newest_first (ps : list obj) :
  Forall (fun p => is_Some (created p)) ps →
  StronglySorted newer_first (sort by_createdAt ps).
Proof.
  intros Hvalid.
  pose proof (sort_perm by_createdAt ps) as Hperm.
  assert (Hin : ∀ p, In p ps → is_Some (created p)).
  { intros p Hp. rewrite Forall_forall in Hvalid. by apply Hvalid, list_elem_of_In. }
  apply (StronglySorted_within (descends (fun p => default 0 (created p)))).
  - intros a b Ha Hb. unfold descends, newer_first.
    destruct (Hin a (Permutation_in _ Hperm Ha)) as [ta ->].
    destruct (Hin b (Permutation_in _ Hperm Hb)) as [tb ->]. done.
  - apply sort_descends. intros a b Ha Hb.
    unfold ProjectService.by_createdAt, ProjectService.minus.
    destruct (Hin a Ha) as [ta Hta]. destruct (Hin b Hb) as [tb Htb].
    unfold created in *. by rewrite Hta, Htb.
Qed.

(** C5. When every record's [createdAt] is a valid date, [fetchAll]
    completes normally, leaves the world as it is, and returns the records
    of the collection (all of them, each as often as it occurs) with the
    newest first.  The order in which the records are stored plays no
    part: when no two records share a creation time, every collection
    with the same records is fetched as the same list. *)
Theorem fetchAll_newest_first (w : world) :
  Forall (fun p => is_Some (created p)) (projects w) →
  ∃ l, fetchAll w = (Normal l, w)
       ∧ Permutation l (projects w)
       ∧ length l = length (projects w)
       ∧ StronglySorted newer_first l
       ∧ (∀ w2,
            Permutation (projects w2) (projects w) →
            (∀ a b, In a (projects w) → In b (projects w) →
                    created a = created b → a = b) →
            fetchAll w2 = (Normal l, w2)).
Proof.
  intros Hvalid. exists (sort by_createdAt (projects w)).
  pose proof (sort_perm by_createdAt (projects w)) as Hperm.
  pose proof (sort_newest_first _ Hvalid) as Hsorted.
  split; [reflexivity |]. split; [done |].
  split; [by apply Permutation_length |]. split; [done |].
  intros w2 Hperm2 Hdistinct.
  unfold ProjectService.fetchAll, bind, delay, ret, get_world. simpl.
  f_equal. f_equal. symmetry.
  assert (Hvalid2 : Forall (fun p => is_Some (created p)) (projects w2)).
  { apply Forall_forall. intros p Hp. rewrite Forall_forall in Hvalid.
    apply Hvalid. apply list_elem_of_In. apply list_elem_of_In in Hp.
    by apply (Permutation_in _ Hperm2). }
  apply (sorted_perm_unique newer_first); [| done | by apply sort_newest_first |].
  - intros a b Ha Hb Hab Hba.
    apply (Permutation_in _ Hperm) in Ha. apply (Permutation_in _ Hperm) in Hb.
    apply Hdistinct; [done | done |].
    unfold newer_first in Hab, Hba.
    destruct (created a) as [ta |], (created b) as [tb |]; try done.
    f_equal. lia.
  - rewrite Hperm, <- Hperm2. symmetry. apply sort_perm.
Qed.

(** *** The contact filter *)

(** C8. On messages whose [read] is a boolean, the filter of
    [ContactManager] selects, for each of the four selectors, exactly the
    messages the specification names: all, everything; new, [read] false;
    read, [read === true] and [status !== 'replied']; replied,
    [status === 'replied']. *)
Theorem filteredContacts_selects (s : Spec.selector) (cs : list obj) :
  Forall Spec.read_is_boolean cs →
  ContactManager.filteredContacts (Spec.selector_name s) cs = List.filter (Spec.selects s) cs.
Proof.
  intros H. unfold ContactManager.filteredContacts. apply filter_ext_Forall.
  eapply Forall_impl; [exact H |]. simpl. intros c [b Hb].
  destruct s; unfold ContactManager.filter_callback, and_, not_; simpl;
    rewrite ?Hb; by destruct b.
Qed.

(** ** More of the service *)

Variable URL_accepts : value → bool.
Variable Number_toString : Z → string.
Variable JSON_parse_value : string → completion value.
Variable JSON_stringify_value : value → string.

Local Abbreviation getContacts := (ProjectService.getContacts new_Date).
Local Abbreviation constructor := (ProjectService.constructor JSON_parse).
Local Abbreviation Fields := ProjectService.Fields.
Local Abbreviation fields := ProjectService.fields.
Local Abbreviation this_projects := ProjectService.this_projects.
Local Abbreviation this_contacts := ProjectService.this_contacts.
Local Abbreviation validateForm := (ProjectForm.validateForm URL_accepts).
Local Abbreviation handleSubmit :=
  (ProjectForm.handleSubmit URL_accepts JSON_stringify quota_exceeded).
Local Abbreviation fetchProjects := (ProjectAdmin.fetchProjects new_Date).
Local Abbreviation handleDelete :=
  (ProjectAdmin.handleDelete JSON_stringify quota_exceeded).
Local Abbreviation ToString := (ProjectList.ToString Number_toString).
Local Abbreviation by_string := (ProjectList.by_string Number_toString).
Local Abbreviation uniqueTechnologies := (ProjectList.uniqueTechnologies Number_toString).
Local Abbreviation App_step := (App.step JSON_stringify_value quota_exceeded).
Local Abbreviation App_steps := (App.steps JSON_stringify_value quota_exceeded).
Local Abbreviation App_mount := (App.mount JSON_parse_value).
Local Abbreviation ContactForm_handleSubmit :=
  (ContactForm.handleSubmit JSON_stringify quota_exceeded).

(** The ids of a collection, in order. *)
Definition ids (records : list obj) : list value :=
  List.map (fun p => prop p "_id") records.

(** The fields that the create branch sets on top of [projectData]. *)
Definition written_by_create : list string := ["_id"; "createdAt"].

(** What a loader returns, by cases on the storage. *)
Definition loaded (key : string) (fallback : list obj) (st : storage) : parsed :=
  match stored_under key st with
  | Some text =>
      if String.eqb text "" then Records fallback
      else match JSON_parse text with
           | Normal returned => returned
           | Throw _ => Records fallback
           end
  | None => Records fallback
  end.

(** The constructor, run on the storage of [w], completes, leaves the
    world as it is and assigns [ps] and [cs] to the two fields. *)
Definition starts_with (w : world) (ps cs : parsed) : Prop :=
  constructor w = (Normal (Fields ps cs), w).

(** Storage takes the write of [records] under [key]. *)
Definition takes (key : string) (records : list obj) (st : storage) : Prop :=
  ∃ items, st = Available items
           ∧ quota_exceeded items key (JSON_stringify records) = false.

(** The host's [JSON.parse] reads back what its [JSON.stringify] writes
    for [records]. *)
Definition reads_back (records : list obj) : Prop :=
  JSON_stringify records ≠ ""
  ∧ JSON_parse (JSON_stringify records) = Normal (Records records).

(** Storage refuses every write. *)
Definition refuses (st : storage) : Prop :=
  st = Blocked
  ∨ ∃ items, st = Available items ∧ ∀ key text, quota_exceeded items key text = true.

Definition is_unread (contact : obj) : bool := not_ (prop contact "read").

(** [c] occurs in [s]. *)
Fixpoint occurs (c : ascii) (s : string) : bool :=
  match s with
  | EmptyString => false
  | String d s' => Ascii.eqb d c || occurs c s'
  end.

(** [s] does not start with white space. *)
Definition no_lead (s : string) : Prop :=
  match s with
  | EmptyString => True
  | String c _ => is_white_space c = false
  end.

(** An entry as [save] and the form store it: not empty, no white space
    at either end, no comma. *)
Definition normalised (x : string) : Prop :=
  x ≠ "" ∧ trim x = x ∧ occurs "," x = false.

(** The record that an edit without changes leaves in place of [P]. *)
Definition touched (r : readings) (P : obj) : obj :=
  <["bannerImage" := or_ (prop P "bannerImage") VNull]>
    (<["projectImage" := or_ (prop P "projectImage") VNull]>
       (<["updatedAt" := VStr (toISOString_1 r)]> P)).

(** [a] may stand before [b] in a list sorted by the text of its values. *)
Definition text_le (a b : value) : Prop := String.leb (ToString a) (ToString b) = true.

(** The callback returned [true] on [x]. *)
Definition kept {A} (callback : A → completion bool) (x : A) : bool :=
  match callback x with
  | Normal true => true
  | _ => false
  end.

(** The event is not a submission of the admin password. *)
Definition no_password (e : App.event) : Prop :=
  e ≠ App.PasswordModal_handleSubmit CONFIG.ADMIN_PASSWORD.

(** The record has a creation date that can be read, and it is not
    later than the instant [now]. *)
Definition not_newer (now : Z) (p : obj) : Prop :=
  ∃ tp, created p = Some tp ∧ tp ≤ now.

(** The text that [validateForm] requires under [name]: a string with
    something other than white space in it, of [least] characters or
    more, white space counted. *)
Definition acceptable_text (name : string) (least : nat) (formData : obj) : Prop :=
  ∃ text, prop formData name = VStr text
          ∧ trim text ≠ "" ∧ (least ≤ String.length text)%nat.

(** The url that [validateForm] allows under [name]: none (a falsy
    value), or one that [new URL] accepts. *)
Definition acceptable_url (name : string) (formData : obj) : Prop :=
  truthy (prop formData name) = false ∨ URL_accepts (prop formData name) = true.

(** What the contact form sends: name, email and message not blank, the
    email matching the pattern, the message of 10 characters or more. *)
Definition sendable (n e m : string) : bool :=
  negb (String.eqb (trim n) "") && negb (String.eqb (trim e) "")
  && ContactForm.email_pattern_test e
  && negb (String.eqb (trim m) "") && negb (String.length m <? 10)%nat.

(** *** save, create branch *)

(** X1. An input without an id (absent or falsy [_id]) and with
    [technologies] an array or a string: [save] puts one new record in
    front of the collection, the records before keep their places behind
    it, and the new record is returned.  Its [_id] is 'p' followed by the
    clock and random readings and its [createdAt] is the clock reading,
    whatever the input carried under these two names; the four fields of
    [projectData] are as in an update; every other field is the input's. *)
Theorem save_create_inserts_at_front (r : readings) (project : obj) (w : world) (t : value) :
  truthy (prop project "_id") = false →
  technologies_of (prop project "technologies") = Normal t →
  ∃ (w' : world) (newProject : obj),
    save r project w = (Normal (Some newProject), w')
    ∧ projects w' = newProject :: projects w
    ∧ contacts w' = contacts w
    ∧ newProject !! "_id" = Some (VStr ("p" ++ Date_now r ++ Math_random r))
    ∧ newProject !! "createdAt" = Some (VStr (toISOString_2 r))
    ∧ newProject !! "updatedAt" = Some (VStr (toISOString_1 r))
    ∧ newProject !! "technologies" = Some t
    ∧ newProject !! "projectImage" = Some (or_ (prop project "projectImage") VNull)
    ∧ newProject !! "bannerImage" = Some (or_ (prop project "bannerImage") VNull)
    ∧ (∀ k, k ∉ written_by_create → k ∉ written_by_save →
            newProject !! k = project !! k).
Proof.
  intros Hid Ht.
  set (newProject := <["createdAt" := VStr (toISOString_2 r)]>
                       (<["_id" := VStr ("p" ++ Date_now r ++ Math_random r)]>
                          (projectData_of r project t)) : obj).
  exists (World (newProject :: projects w) (contacts w)
            (projects_text (newProject :: projects w) (localStorage w))), newProject.
  split; [apply (save_create_eq r project w t Hid Ht) |].
  split; [reflexivity |]. split; [reflexivity |]. unfold newProject.
  split; [rewrite lookup_insert_ne by done; by rewrite lookup_insert_eq |].
  split; [by rewrite lookup_insert_eq |].
  split; [unfold ProjectService.projectData_of;
          rewrite !lookup_insert_ne by done; by rewrite lookup_insert_eq |].
  split; [unfold ProjectService.projectData_of;
          rewrite !lookup_insert_ne by done; by rewrite lookup_insert_eq |].
  split; [unfold ProjectService.projectData_of;
          rewrite !lookup_insert_ne by done; by rewrite lookup_insert_eq |].
  split; [unfold ProjectService.projectData_of;
          rewrite !lookup_insert_ne by done; by rewrite lookup_insert_eq |].
  intros k Hc Hs.
  rewrite !lookup_insert_ne;
    [by apply projectData_other | |];
    intros <-; apply Hc; unfold written_by_create;
    repeat first [apply list_elem_of_here | apply list_elem_of_further].
Qed.

(** *** The ids of the collection *)

Lemma merge_into_id projectData id p :
  truthy id = true → prop projectData "_id" = id →
  prop (merge_into projectData id p) "_id" = prop p "_id".
Proof.
  intros Hid Hpd. unfold merge_into. destruct (has_id id p) eqn:E; [| done].
  unfold ProjectService.has_id in E. apply strict_eq_true in E. rewrite E.
  rewrite <- Hpd in Hid. apply truthy_prop_Some in Hid.
  unfold spread2, prop. by rewrite (lookup_union_Some_l _ _ _ _ Hid), Hpd.
Qed.

Lemma save_update_keeps_ids_aux (r : readings) (project : obj) (w : world) (t : value) :
  truthy (prop project "_id") = true →
  technologies_of (prop project "technologies") = Normal t →
  ids (projects (snd (save r project w))) = ids (projects w).
Proof.
  intros Hid Ht. rewrite (save_update_eq r project w t Hid Ht). cbv zeta. simpl.
  unfold ids. rewrite List.map_map. apply List.map_ext.
  intros p. apply merge_into_id; [done | apply projectData_id].
Qed.

(** X2. An update ([save] with a truthy [_id] and [technologies] an array
    or a string) returns, and leaves the ids of the collection as they
    are, each in its place: no record is added, removed, moved or renamed;
    the contact collection is untouched. *)
Theorem save_update_keeps_ids (r : readings) (project : obj) (w : world) :
  truthy (prop project "_id") = true →
  (∃ xs, prop project "technologies" = VArr xs) ∨ (∃ s, prop project "technologies" = VStr s) →
  ∃ returned w',
    save r project w = (Normal returned, w')
    ∧ ids (projects w') = ids (projects w)
    ∧ length (projects w') = length (projects w)
    ∧ contacts w' = contacts w.
Proof.
  intros Hid Htech. destruct (technologies_of_accepts _ Htech) as [t Ht].
  pose proof (save_update_keeps_ids_aux r project w t Hid Ht) as Hids.
  rewrite (save_update_eq r project w t Hid Ht) in *. cbv zeta in *.
  eexists _, _. split; [reflexivity |]. cbn [snd projects contacts] in *.
  split; [exact Hids |]. split; [| done].
  by rewrite length_map.
Qed.

Lemma ids_filter_NoDup (f : obj → bool) (records : list obj) :
  NoDup (ids records) → NoDup (ids (List.filter f records)).
Proof.
  unfold ids. induction records as [| p records IH]; simpl; [done |].
  rewrite NoDup_cons. intros [Hp Hrest].
  destruct (f p); simpl; [| by apply IH].
  apply NoDup_cons. split; [| by apply IH].
  intros Hin. apply Hp.
  apply list_elem_of_In, in_map_iff in Hin as (q & Hq & Hin).
  apply filter_In in Hin as [Hin _].
  apply list_elem_of_In, in_map_iff. eauto.
Qed.

(** X3. "One record per id" is kept: when the ids of the project
    collection are pairwise distinct, they still are after [delete], and
    after [save] provided the id that a create would generate is not yet
    in the collection. *)
Theorem project_ids_stay_distinct (w : world) :
  NoDup (ids (projects w)) →
  (∀ id, NoDup (ids (projects (snd (delete id w)))))
  ∧ (∀ r project,
       VStr ("p" ++ Date_now r ++ Math_random r) ∉ ids (projects w) →
       NoDup (ids (projects (snd (save r project w))))).
Proof.
  intros Hids. split.
  - intros id. rewrite delete_eq. cbv zeta. simpl. by apply ids_filter_NoDup.
  - intros r project Hfresh.
    destruct (technologies_of (prop project "technologies")) as [t | e] eqn:Ht.
    + destruct (truthy (prop project "_id")) eqn:Hid.
      * by rewrite (save_update_keeps_ids_aux r project w t Hid Ht).
      * rewrite (save_create_eq r project w t Hid Ht). cbv zeta. simpl.
        unfold ids at 1. simpl. fold (ids (projects w)).
        apply NoDup_cons. split; [| done].
        unfold prop at 1. rewrite lookup_insert_ne by done. by rewrite lookup_insert_eq.
    + by rewrite (save_throws r project w e Ht).
Qed.

(** *** delete and deleteContact with an id that is there *)

(** X4. [delete] and [deleteContact] remove every record whose [_id] is
    the given one and nothing else: afterwards no record carries the id,
    the records left are those with another id, and they keep their
    order. *)
Theorem delete_removes_exactly_the_matches (w : world) (id : value) :
  let ps := projects (snd (delete id w)) in
  let cs := contacts (snd (deleteContact id w)) in
  absent id ps
  ∧ (∀ p, p ∈ ps ↔ p ∈ projects w ∧ has_id id p = false)
  ∧ sublist ps (projects w)
  ∧ absent id cs
  ∧ (∀ c, c ∈ cs ↔ c ∈ contacts w ∧ has_id id c = false)
  ∧ sublist cs (contacts w).
Proof.
  rewrite delete_eq, deleteContact_eq. cbv zeta. simpl.
  assert (Hfilter : ∀ records : list obj,
            let left := List.filter (fun p => negb (has_id id p)) records in
            absent id left
            ∧ (∀ p, p ∈ left ↔ p ∈ records ∧ has_id id p = false)
            ∧ sublist left records).
  { intros records. cbv zeta. split; [| split].
    - apply Forall_forall. intros p Hp.
      apply list_elem_of_In, filter_In in Hp as [_ Hp]. by apply negb_true_iff.
    - intros p. rewrite !list_elem_of_In, filter_In, negb_true_iff. done.
    - induction records as [| p records IH]; simpl; [constructor |].
      destruct (negb (has_id id p)); by constructor. }
  destruct (Hfilter (projects w)) as (? & ? & ?).
  destruct (Hfilter (contacts w)) as (? & ? & ?). done.
Qed.

(** *** What is written can be read back *)

Lemma bind_eq {A B} (m : M A) (k : A → M B) w a w' :
  m w = (Normal a, w') → bind m k w = k a w'.
Proof. intros H. unfold bind. by rewrite H. Qed.

Lemma constructor_eq w :
  constructor w
  = (Normal (ProjectService.Fields
               (loaded "portfolio-projects" INITIAL_PROJECTS (localStorage w))
               (loaded "portfolio-contacts" [] (localStorage w))), w).
Proof.
  unfold ProjectService.constructor.
  erewrite bind_eq; [| apply (load_eq "portfolio-projects" INITIAL_PROJECTS)].
  erewrite bind_eq; [| apply (load_eq "portfolio-contacts" [])].
  reflexivity.
Qed.

Lemma loaded_after_write key records fallback st :
  takes key records st → reads_back records →
  loaded key fallback (persisted key (JSON_stringify records) st) = Records records.
Proof.
  intros (items & -> & Hquota) [Hne Hparse].
  unfold loaded, ProjectService.persisted, stored_under. rewrite Hquota.
  rewrite lookup_insert_eq. apply String.eqb_neq in Hne. by rewrite Hne, Hparse.
Qed.

Lemma loaded_other_key key key' text fallback st :
  key ≠ key' →
  loaded key' fallback (persisted key text st) = loaded key' fallback st.
Proof.
  intros Hne. unfold loaded, ProjectService.persisted, stored_under.
  destruct st as [| items]; [done |].
  destruct (quota_exceeded items key text); [done |].
  by rewrite lookup_insert_ne.
Qed.

Lemma save_shape r project w :
  (∃ e, save r project w = (Throw e, w))
  ∨ (∃ ret ps, save r project w
               = (Normal ret, World ps (contacts w) (projects_text ps (localStorage w)))).
Proof.
  destruct (technologies_of (prop project "technologies")) as [t | e] eqn:Ht.
  - right. destruct (truthy (prop project "_id")) eqn:Hid.
    + rewrite (save_update_eq r project w t Hid Ht). eauto.
    + rewrite (save_create_eq r project w t Hid Ht). eauto.
  - left. rewrite (save_throws r project w e Ht). eauto.
Qed.

Lemma call_shape (c : ProjectService.contact_call) w :
  ∃ cs, call c w = (Normal tt, World (projects w) cs (contacts_text cs (localStorage w))).
Proof.
  destruct c as [r data | id | id | id]; unfold ProjectService.call, bind.
  - rewrite contact_eq. eauto.
  - rewrite markAsRead_eq. eauto.
  - rewrite markAsReplied_eq. eauto.
  - rewrite deleteContact_eq. eauto.
Qed.

(** X5. Every project method ends by writing the collection it leaves.
    When storage takes that write and the host's [JSON.parse] reads back
    what its [JSON.stringify] wrote, a service constructed on the storage
    left by [delete], or by a [save] that returned, starts with the
    project collection that was in memory, and with the contact
    collection a service constructed before the call would have had. *)
Theorem projects_survive_reload (w : world) :
  (∀ id,
     let w' := snd (delete id w) in
     takes "portfolio-projects" (projects w') (localStorage w) →
     reads_back (projects w') →
     ∃ before, constructor w = (Normal before, w)
               ∧ starts_with w' (Records (projects w')) (this_contacts before))
  ∧ (∀ r project ret,
       let w' := snd (save r project w) in
       fst (save r project w) = Normal ret →
       takes "portfolio-projects" (projects w') (localStorage w) →
       reads_back (projects w') →
       ∃ before, constructor w = (Normal before, w)
                 ∧ starts_with w' (Records (projects w')) (this_contacts before)).
Proof.
  split.
  - intros id. rewrite delete_eq. cbv zeta. cbn [snd projects]. intros Htakes Hback.
    eexists. split; [apply constructor_eq |].
    unfold starts_with. rewrite constructor_eq.
    cbn [ProjectService.this_contacts projects contacts localStorage].
    unfold projects_text. by rewrite loaded_after_write, loaded_other_key.
  - intros r project ret.
    destruct (save_shape r project w) as [[e ->] | (ret' & ps & ->)];
      cbv zeta; cbn [fst snd projects]; [discriminate |].
    intros _ Htakes Hback.
    eexists. split; [apply constructor_eq |].
    unfold starts_with. rewrite constructor_eq.
    cbn [ProjectService.this_contacts projects contacts localStorage].
    unfold projects_text. by rewrite loaded_after_write, loaded_other_key.
Qed.

(** X6. The same for the contact collection: after [contact],
    [markAsRead], [markAsReplied] or [deleteContact], when storage takes
    the write and the host reads back what it wrote, a service constructed
    on the storage left starts with the contact collection that was in
    memory; its project collection is the one a service constructed
    before the call would have had. *)
Theorem contacts_survive_reload (w : world) (c : ProjectService.contact_call) :
  let w' := snd (call c w) in
  takes "portfolio-contacts" (contacts w') (localStorage w) →
  reads_back (contacts w') →
  ∃ before, constructor w = (Normal before, w)
            ∧ starts_with w' (this_projects before) (Records (contacts w')).
Proof.
  destruct (call_shape c w) as [cs ->]. cbv zeta. cbn [snd contacts].
  intros Htakes Hback.
  eexists. split; [apply constructor_eq |].
  unfold starts_with. rewrite constructor_eq.
  cbn [ProjectService.this_projects projects contacts localStorage].
  unfold contacts_text. by rewrite loaded_after_write, loaded_other_key.
Qed.

Lemma persisted_refused key text st : refuses st → persisted key text st = st.
Proof.
  intros [-> | (items & -> & Hquota)]; [done |].
  unfold ProjectService.persisted. by rewrite Hquota.
Qed.

(** X7. A storage that refuses every write (access blocked, or quota
    exceeded) stops no method: [delete], [contact], [markAsRead],
    [markAsReplied] and [deleteContact] complete normally, [save] ends as
    it would otherwise, the change is made in memory, and storage is
    left as it was.  For [save]: an update returns the record found after
    the merge and a create returns the new record, with the collection
    changed in memory; input without usable technologies throws as it
    always does; and completion, returned value and collections are
    those of the same call on any other storage. *)
Theorem storage_failure_is_absorbed (w : world) :
  refuses (localStorage w) →
  (∀ id, delete id w
         = (Normal tt,
            World (List.filter (fun p => negb (has_id id p)) (projects w))
                  (contacts w) (localStorage w)))
  ∧ (∀ r data, contact r data w
               = (Normal (acknowledgement r),
                  World (projects w) (contactData_of r data :: contacts w)
                        (localStorage w)))
  ∧ (∀ id, markAsRead id w
           = (Normal true,
              World (projects w) (List.map (mark_read id) (contacts w)) (localStorage w)))
  ∧ (∀ id, markAsReplied id w
           = (Normal true,
              World (projects w) (List.map (mark_replied id) (contacts w)) (localStorage w)))
  ∧ (∀ id, deleteContact id w
           = (Normal true,
              World (projects w) (List.filter (fun c => negb (has_id id c)) (contacts w))
                    (localStorage w)))
  ∧ (∀ r project, localStorage (snd (save r project w)) = localStorage w)
  ∧ (∀ r project t,
       truthy (prop project "_id") = false →
       technologies_of (prop project "technologies") = Normal t →
       length (projects (snd (save r project w))) = S (length (projects w)))
  ∧ (∀ r project t,
       truthy (prop project "_id") = true →
       technologies_of (prop project "technologies") = Normal t →
       let ps := List.map (merge_into (projectData_of r project t) (prop project "_id"))
                   (projects w) in
       save r project w
       = (Normal (List.find (has_id (prop project "_id")) ps),
          World ps (contacts w) (localStorage w)))
  ∧ (∀ r project t,
       truthy (prop project "_id") = false →
       technologies_of (prop project "technologies") = Normal t →
       let newProject : obj :=
         <["createdAt" := VStr (toISOString_2 r)]>
           (<["_id" := VStr ("p" ++ Date_now r ++ Math_random r)]>
              (projectData_of r project t)) in
       save r project w
       = (Normal (Some newProject),
          World (newProject :: projects w) (contacts w) (localStorage w)))
  ∧ (∀ r project e,
       technologies_of (prop project "technologies") = Throw e →
       save r project w = (Throw e, w))
  ∧ (∀ r project st,
       let other := World (projects w) (contacts w) st in
       fst (save r project w) = fst (save r project other)
       ∧ projects (snd (save r project w)) = projects (snd (save r project other))
       ∧ contacts (snd (save r project w)) = contacts (snd (save r project other))).
Proof.
  intros Hrefuses.
  assert (Hupdate : ∀ r project t,
            truthy (prop project "_id") = true →
            technologies_of (prop project "technologies") = Normal t →
            let ps := List.map (merge_into (projectData_of r project t) (prop project "_id"))
                        (projects w) in
            save r project w
            = (Normal (List.find (has_id (prop project "_id")) ps),
               World ps (contacts w) (localStorage w))).
  { intros r project t Hid Ht. rewrite (save_update_eq r project w t Hid Ht).
    cbv zeta. unfold projects_text. by rewrite persisted_refused. }
  assert (Hcreate : ∀ r project t,
            truthy (prop project "_id") = false →
            technologies_of (prop project "technologies") = Normal t →
            let newProject : obj :=
              <["createdAt" := VStr (toISOString_2 r)]>
                (<["_id" := VStr ("p" ++ Date_now r ++ Math_random r)]>
                   (projectData_of r project t)) in
            save r project w
            = (Normal (Some newProject),
               World (newProject :: projects w) (contacts w) (localStorage w))).
  { intros r project t Hid Ht. rewrite (save_create_eq r project w t Hid Ht).
    cbv zeta. unfold projects_text. by rewrite persisted_refused. }
  assert (Hother : ∀ r project st,
            let other := World (projects w) (contacts w) st in
            fst (save r project w) = fst (save r project other)
            ∧ projects (snd (save r project w)) = projects (snd (save r project other))
            ∧ contacts (snd (save r project w)) = contacts (snd (save r project other))).
  { intros r project st other.
    destruct (technologies_of (prop project "technologies")) as [t | e] eqn:Ht.
    - destruct (truthy (prop project "_id")) eqn:Hid.
      + rewrite (save_update_eq r project w t Hid Ht).
        by rewrite (save_update_eq r project other t Hid Ht).
      + rewrite (save_create_eq r project w t Hid Ht).
        by rewrite (save_create_eq r project other t Hid Ht).
    - rewrite (save_throws r project w e Ht).
      by rewrite (save_throws r project other e Ht). }
  split; [| split; [| split; [| split; [| split; [| split; [| split;
    [| split; [exact Hupdate | split; [exact Hcreate | split;
      [intros r project e; apply save_throws | exact Hother]]]]]]]]]].
  - intros id. rewrite delete_eq. cbv zeta. unfold projects_text.
    by rewrite persisted_refused.
  - intros r data. rewrite contact_eq. cbv zeta. unfold contacts_text.
    by rewrite persisted_refused.
  - intros id. rewrite markAsRead_eq. cbv zeta. unfold contacts_text.
    by rewrite persisted_refused.
  - intros id. rewrite markAsReplied_eq. cbv zeta. unfold contacts_text.
    by rewrite persisted_refused.
  - intros id. rewrite deleteContact_eq. cbv zeta. unfold contacts_text.
    by rewrite persisted_refused.
  - intros r project.
    destruct (save_shape r project w) as [[e ->] | (ret' & ps & ->)]; [done |].
    cbn [snd localStorage]. unfold projects_text. by rewrite persisted_refused.
  - intros r project t Hid Ht. by rewrite (save_create_eq r project w t Hid Ht).
Qed.

(** *** Steps of the unread count *)

Lemma mark_read_not_unread id c : has_id id c = true → is_unread (mark_read id c) = false.
Proof.
  intros H. unfold is_unread. by destruct (mark_read_fields id c H) as (_ & -> & _).
Qed.

Lemma mark_replied_unread id c : is_unread (mark_replied id c) = is_unread c.
Proof.
  unfold is_unread. destruct (has_id id c) eqn:E.
  - by destruct (mark_replied_fields id c E) as (_ & -> & _).
  - unfold mark_replied. by rewrite E.
Qed.

Lemma filter_length_le {A} (f : A → bool) (l : list A) :
  (length (List.filter f l) ≤ length l)%nat.
Proof.
  induction l as [| x l IH]; simpl; [done |]. destruct (f x); simpl; lia.
Qed.

(** X8. How each contact method moves [getUnreadCount()]: [contact] adds
    one; [markAsReplied] leaves it as it is; after [markAsRead] with an id
    it is the number of unread messages with another id, which is also
    what it is after [deleteContact] with that id, and never more than
    before. *)
Theorem unread_count_steps (w : world) :
  (∀ r data, getUnreadCount (snd (contact r data w)) = S (getUnreadCount w))
  ∧ (∀ id, getUnreadCount (snd (markAsReplied id w)) = getUnreadCount w)
  ∧ (∀ id, getUnreadCount (snd (markAsRead id w))
           = length (List.filter (fun c => is_unread c && negb (has_id id c)) (contacts w)))
  ∧ (∀ id, getUnreadCount (snd (deleteContact id w))
           = getUnreadCount (snd (markAsRead id w)))
  ∧ (∀ id, (getUnreadCount (snd (markAsRead id w)) ≤ getUnreadCount w)%nat).
Proof.
  assert (Hread : ∀ id cs,
            length (List.filter is_unread (List.map (mark_read id) cs))
            = length (List.filter (fun c => is_unread c && negb (has_id id c)) cs)).
  { intros id cs. induction cs as [| c cs IH]; simpl; [done |].
    destruct (has_id id c) eqn:E.
    - rewrite (mark_read_not_unread id c E), andb_false_r. exact IH.
    - unfold mark_read at 1. rewrite E, andb_true_r.
      destruct (is_unread c); simpl; by rewrite IH. }
  assert (Hdelete : ∀ id cs,
            length (List.filter is_unread (List.filter (fun c => negb (has_id id c)) cs))
            = length (List.filter (fun c => is_unread c && negb (has_id id c)) cs)).
  { intros id cs. induction cs as [| c cs IH]; simpl; [done |].
    destruct (has_id id c); simpl.
    - by rewrite andb_false_r.
    - rewrite andb_true_r. destruct (is_unread c); simpl; by rewrite IH. }
  unfold ProjectService.getUnreadCount. fold is_unread.
  split; [| split; [| split; [| split]]].
  - intros r data. rewrite contact_eq. cbv zeta. cbn [snd contacts List.filter].
    unfold is_unread at 1. by destruct (contactData_fields r data) as (_ & -> & _).
  - intros id. rewrite markAsReplied_eq. cbv zeta. cbn [snd contacts].
    induction (contacts w) as [| c cs IH]; simpl; [done |].
    rewrite mark_replied_unread. destruct (is_unread c); simpl; by rewrite IH.
  - intros id. rewrite markAsRead_eq. cbv zeta. cbn [snd contacts]. apply Hread.
  - intros id. rewrite markAsRead_eq, deleteContact_eq. cbv zeta. cbn [snd contacts].
    by rewrite Hread, Hdelete.
  - intros id. rewrite markAsRead_eq. cbv zeta. cbn [snd contacts]. rewrite Hread.
    induction (contacts w) as [| c cs IH]; simpl; [done |].
    destruct (is_unread c), (has_id id c); simpl; lia.
Qed.

(** *** Marking twice *)

Lemma has_id_mark_read id c : has_id id (mark_read id c) = has_id id c.
Proof.
  destruct (has_id id c) eqn:E.
  - unfold ProjectService.has_id.
    destruct (mark_read_fields id c E) as (-> & _). exact E.
  - unfold mark_read. by rewrite E.
Qed.

Lemma has_id_mark_replied id c : has_id id (mark_replied id c) = has_id id c.
Proof.
  destruct (has_id id c) eqn:E.
  - unfold ProjectService.has_id.
    destruct (mark_replied_fields id c E) as (-> & _). exact E.
  - unfold mark_replied. by rewrite E.
Qed.

Lemma mark_read_idem id c : mark_read id (mark_read id c) = mark_read id c.
Proof.
  unfold mark_read at 1. rewrite has_id_mark_read.
  destruct (has_id id c) eqn:E; [| done].
  unfold mark_read. rewrite E.
  apply map_eq. intros k.
  destruct (decide ("status" = k)) as [<- | Hs]; [by rewrite !lookup_insert_eq |].
  rewrite (lookup_insert_ne _ "status") by done.
  destruct (decide ("read" = k)) as [<- | Hr].
  - rewrite lookup_insert_eq, (lookup_insert_ne _ "status") by done.
    by rewrite lookup_insert_eq.
  - by rewrite !lookup_insert_ne.
Qed.

Lemma mark_replied_idem id c : mark_replied id (mark_replied id c) = mark_replied id c.
Proof.
  unfold mark_replied at 1. rewrite has_id_mark_replied.
  destruct (has_id id c) eqn:E; [| done].
  unfold mark_replied. rewrite E. by rewrite insert_insert_eq.
Qed.

Lemma persisted_idem key text st :
  persisted key text (persisted key text st) = persisted key text st.
Proof.
  unfold ProjectService.persisted. destruct st as [| items]; [done |].
  destruct (quota_exceeded items key text) eqn:E; [by rewrite E |].
  destruct (quota_exceeded (<[key := text]> items) key text); [done |].
  by rewrite insert_insert_eq.
Qed.

(** X9. [markAsRead] and [markAsReplied] are idempotent: a second call
    with the same id completes normally and leaves the collections and
    the storage exactly as the first call left them. *)
Theorem marking_twice_is_marking_once (w : world) (id : value) :
  markAsRead id (snd (markAsRead id w)) = (Normal true, snd (markAsRead id w))
  ∧ markAsReplied id (snd (markAsReplied id w)) = (Normal true, snd (markAsReplied id w)).
Proof.
  split.
  - rewrite !markAsRead_eq. cbv zeta. cbn [snd projects contacts localStorage].
    rewrite List.map_map.
    rewrite (List.map_ext _ _ (mark_read_idem id)).
    unfold contacts_text. by rewrite persisted_idem.
  - rewrite !markAsReplied_eq. cbv zeta. cbn [snd projects contacts localStorage].
    rewrite List.map_map.
    rewrite (List.map_ext _ _ (mark_replied_idem id)).
    unfold contacts_text. by rewrite persisted_idem.
Qed.

(** *** getContacts and the views of ContactManager *)

Lemma filter_length_perm {A} (f : A → bool) (l l' : list A) :
  Permutation l l' → length (List.filter f l) = length (List.filter f l').
Proof.
  induction 1 as [| x l l' _ IH | x y l | l l' l'' _ IH1 _ IH2]; simpl.
  - done.
  - destruct (f x); simpl; by rewrite IH.
  - by destruct (f x), (f y).
  - by rewrite IH1.
Qed.

(** X10. [getContacts] completes normally, changes nothing, and returns
    every message of the collection, each as often as it occurs; the
    unread count that [ContactManager] takes from the list it fetched is
    [getUnreadCount()], and is the number of messages it shows under the
    selector 'new'. *)
Theorem fetched_contacts_agree_on_unread (w : world) :
  ∃ l, getContacts w = (Normal l, w)
       ∧ Permutation l (contacts w)
       ∧ ContactManager.unreadCount l = getUnreadCount w
       ∧ length (ContactManager.filteredContacts "new" l) = getUnreadCount w.
Proof.
  exists (sort by_createdAt (contacts w)).
  pose proof (sort_perm by_createdAt (contacts w)) as Hperm.
  split; [reflexivity |]. split; [done |].
  unfold ContactManager.unreadCount, ProjectService.getUnreadCount.
  split; [by apply filter_length_perm |].
  unfold ContactManager.filteredContacts.
  rewrite <- (filter_length_perm _ _ _ Hperm). f_equal.
Qed.

(** X11. When every message's [createdAt] is a valid date, the list that
    [getContacts] returns has the newest message first. *)
Theorem getContacts_newest_first (w : world) :
  Forall (fun c => is_Some (created c)) (contacts w) →
  ∃ l, getContacts w = (Normal l, w) ∧ StronglySorted newer_first l.
Proof.
  intros Hvalid. exists (sort by_createdAt (contacts w)).
  split; [reflexivity |]. by apply sort_newest_first.
Qed.

Lemma shown_new c :
  truthy (ContactManager.filter_callback "new" c) = negb (truthy (prop c "read")).
Proof. reflexivity. Qed.

Lemma shown_read c :
  truthy (ContactManager.filter_callback "read" c)
  = truthy (prop c "read") && negb (strict_eq (prop c "status") (VStr "replied")).
Proof.
  unfold ContactManager.filter_callback, and_. simpl.
  by destruct (truthy (prop c "read")) eqn:E.
Qed.

Lemma shown_replied c :
  truthy (ContactManager.filter_callback "replied" c)
  = strict_eq (prop c "status") (VStr "replied").
Proof. reflexivity. Qed.

(** X12. The three status selectors of [ContactManager] between them show
    every message; no message is shown under 'read' and also under 'new'
    or 'replied'; a selector that is none of the four names shows
    everything. *)
Theorem contact_selectors_cover (cs : list obj) :
  (∀ c, c ∈ cs →
        c ∈ ContactManager.filteredContacts "new" cs
        ∨ c ∈ ContactManager.filteredContacts "read" cs
        ∨ c ∈ ContactManager.filteredContacts "replied" cs)
  ∧ (∀ c, c ∈ ContactManager.filteredContacts "read" cs →
          (c ∉ ContactManager.filteredContacts "new" cs)
          ∧ (c ∉ ContactManager.filteredContacts "replied" cs))
  ∧ (∀ filter, filter ∉ ["all"; "new"; "read"; "replied"] →
               ContactManager.filteredContacts filter cs = cs).
Proof.
  unfold ContactManager.filteredContacts. split; [| split].
  - intros c Hc. rewrite !list_elem_of_In, !filter_In. apply list_elem_of_In in Hc.
    rewrite shown_new, shown_read, shown_replied.
    destruct (truthy (prop c "read")),
      (strict_eq (prop c "status") (VStr "replied")); simpl; auto.
  - intros c. rewrite !list_elem_of_In, !filter_In.
    rewrite shown_new, shown_read, shown_replied.
    intros [Hc H].
    destruct (truthy (prop c "read")),
      (strict_eq (prop c "status") (VStr "replied")); simpl in *; try done.
    split; intros [_ ?]; done.
  - intros filter Hf. apply filter_all_true, Forall_forall. intros c _.
    rewrite !not_elem_of_cons in Hf. destruct Hf as (H1 & H2 & H3 & H4 & _).
    unfold ContactManager.filter_callback.
    apply String.eqb_neq in H1, H2, H3, H4. by rewrite H1, H2, H3, H4.
Qed.

(** *** The technologies that save stores *)

Lemma split_not_nil sep s : split sep s ≠ [].
Proof.
  destruct s as [| c s]; simpl; [done |].
  destruct (Ascii.eqb c sep); [done |]. by destruct (split sep s).
Qed.

Lemma split_no_sep sep s : Forall (fun word => occurs sep word = false) (split sep s).
Proof.
  induction s as [| c s IH]; simpl; [by repeat constructor |].
  destruct (Ascii.eqb c sep) eqn:E; [by constructor |].
  destruct (split sep s) as [| word words]; simpl.
  - repeat constructor. simpl. by rewrite E.
  - inversion IH as [| ? ? Hword Hwords]; subst.
    constructor; [| done]. simpl. by rewrite E.
Qed.

Lemma occurs_trimStart c s : occurs c s = false → occurs c (trimStart s) = false.
Proof.
  induction s as [| d s IH]; simpl; [done |].
  intros H. apply orb_false_iff in H as [Hd Hs].
  destruct (is_white_space d); [by apply IH |]. simpl. by rewrite Hd, Hs.
Qed.

Lemma occurs_trimEnd c s : occurs c s = false → occurs c (trimEnd s) = false.
Proof.
  induction s as [| d s IH]; simpl; [done |].
  intros H. apply orb_false_iff in H as [Hd Hs]. specialize (IH Hs).
  destruct (trimEnd s) as [| e t].
  - destruct (is_white_space d); [done |]. simpl. by rewrite Hd.
  - simpl. rewrite Hd. exact IH.
Qed.

Lemma trimStart_no_lead s : no_lead (trimStart s).
Proof.
  induction s as [| c s IH]; simpl; [done |].
  destruct (is_white_space c) eqn:E; [done |]. simpl. exact E.
Qed.

Lemma trimStart_id s : no_lead s → trimStart s = s.
Proof. destruct s as [| c s]; simpl; [done |]. by intros ->. Qed.

Lemma trimEnd_no_lead s : no_lead s → no_lead (trimEnd s).
Proof.
  destruct s as [| c s]; simpl; [done |]. intros Hc.
  destruct (trimEnd s); [by rewrite Hc | done].
Qed.

Lemma trimEnd_idem s : trimEnd (trimEnd s) = trimEnd s.
Proof.
  induction s as [| c s IH]; simpl; [done |].
  destruct (trimEnd s) as [| d t] eqn:E.
  - destruct (is_white_space c) eqn:Hc; simpl; [done |]. by rewrite Hc.
  - change (trimEnd (String c (String d t)))
      with (match trimEnd (String d t) with
            | EmptyString => if is_white_space c then EmptyString else String c EmptyString
            | u => String c u
            end).
    by rewrite IH.
Qed.

Lemma trim_idem s : trim (trim s) = trim s.
Proof.
  unfold trim.
  rewrite (trimStart_id (trimEnd (trimStart s))).
  - apply trimEnd_idem.
  - apply trimEnd_no_lead, trimStart_no_lead.
Qed.

(** X13. The [technologies] that [save] stores for a comma-separated
    string: no entry is empty, none has white space at either end, none
    contains a comma.  An array is stored as it is given, entries of any
    form included. *)
Theorem technologies_of_is_normalised (s : string) :
  (∃ xs, technologies_of (VStr s) = Normal (VArr xs)
         ∧ Forall (fun x => x ≠ "" ∧ trim x = x ∧ occurs "," x = false) xs)
  ∧ (∀ xs, technologies_of (VArr xs) = Normal (VArr xs)).
Proof.
  split; [| done]. eexists. split; [reflexivity |].
  apply Forall_forall. intros x Hx.
  apply list_elem_of_In, filter_In in Hx as [Hx Hne].
  apply in_map_iff in Hx as (word & <- & Hword).
  split; [| split].
  - simpl in Hne. intros E. by rewrite E in Hne.
  - apply trim_idem.
  - pose proof (split_no_sep "," s) as Hsep. rewrite Forall_forall in Hsep.
    apply occurs_trimEnd, occurs_trimStart, Hsep. by apply list_elem_of_In.
Qed.

(** ** The project form *)

Lemma split_app_sep sep x rest :
  occurs sep x = false → split sep (x ++ String sep rest) = x :: split sep rest.
Proof.
  induction x as [| c x IH]; simpl.
  - intros _. by rewrite Ascii.eqb_refl.
  - intros H. apply orb_false_iff in H as [Hc Hx]. rewrite Hc. by rewrite IH.
Qed.

Lemma split_no_occurs sep x : occurs sep x = false → split sep x = [x].
Proof.
  induction x as [| c x IH]; simpl; [done |].
  intros H. apply orb_false_iff in H as [Hc Hx]. rewrite Hc. by rewrite IH.
Qed.

Lemma map_trim_split_space rest :
  List.map (fun tech => trim tech) (split "," (String " " rest))
  = List.map (fun tech => trim tech) (split "," rest).
Proof.
  cbn [split]. change (Ascii.eqb " " ",") with false. cbv iota.
  destruct (split "," rest) as [| word words] eqn:E; [by apply split_not_nil in E |].
  reflexivity.
Qed.

Lemma nonempty_length x : x ≠ "" → (0 <? String.length x)%nat = true.
Proof. by destruct x. Qed.

Lemma form_text_round_trip (xs : list string) :
  Forall normalised xs →
  List.filter (fun tech => (0 <? String.length tech)%nat)
    (List.map (fun tech => trim tech) (split "," (String.concat ", " xs)))
  = xs.
Proof.
  induction 1 as [| x xs (Hne & Htrim & Hcomma) Hxs IH]; [done |].
  destruct xs as [| y ys].
  - cbn [String.concat]. rewrite (split_no_occurs _ _ Hcomma). simpl.
    by rewrite Htrim, (nonempty_length _ Hne).
  - change (String.concat ", " (x :: y :: ys))
      with (x ++ String "," (String " " (String.concat ", " (y :: ys)))).
    rewrite (split_app_sep _ _ _ Hcomma). cbn [List.map List.filter].
    rewrite Htrim, (nonempty_length _ Hne). f_equal.
    rewrite map_trim_split_space. exact IH.
Qed.

(** X14. Opening a project in the form and submitting it gives the
    service the technologies the project had: when they are an array of
    normalised entries (not empty, no white space at either end, no
    comma), joining them with ', ' for the text field and splitting the
    text on submit returns the same array. *)
Theorem edit_form_keeps_technologies (projectToEdit : obj) (xs : list string) :
  prop projectToEdit "technologies" = VArr xs →
  Forall normalised xs →
  ∃ projectToSave,
    ProjectForm.projectToSave_of (ProjectForm.formData_of (Some projectToEdit))
      (Some projectToEdit) = Normal projectToSave
    ∧ projectToSave !! "technologies" = Some (VArr xs).
Proof.
  intros Htech Hxs.
  assert (Htext : prop (ProjectForm.formData_of (Some projectToEdit)) "technologies"
                  = VStr (String.concat ", " xs)).
  { unfold ProjectForm.formData_of, prop at 1.
    rewrite !lookup_insert_ne by done. rewrite lookup_insert_eq. by rewrite Htech. }
  unfold ProjectForm.projectToSave_of. rewrite Htext.
  rewrite (form_text_round_trip xs Hxs).
  eexists. split; [reflexivity |].
  destruct (truthy (prop projectToEdit "_id")).
  - rewrite !lookup_insert_ne by done. by rewrite lookup_insert_eq.
  - rewrite !lookup_insert_ne by done. by rewrite lookup_insert_eq.
Qed.

Lemma projectToSave_technologies formData projectToEdit projectToSave :
  ProjectForm.projectToSave_of formData projectToEdit = Normal projectToSave →
  ∃ xs, prop projectToSave "technologies" = VArr xs.
Proof.
  unfold ProjectForm.projectToSave_of.
  destruct (prop formData "technologies"); try discriminate.
  intros [= <-]. eexists. unfold prop at 1.
  destruct projectToEdit as [pe |]; [destruct (truthy (prop pe "_id")) |];
    cbv beta iota zeta;
    rewrite !lookup_insert_ne by done; by rewrite lookup_insert_eq.
Qed.

(** X15. The three ways [handleSubmit] ends.  With validation errors it
    shows them and the service is not called: the world is as it was.
    Without errors and with a string in the technologies field, [save] is
    called with [technologies] an array, so it returns, and the form ends
    in 'success' with what [save] returned.  Without errors and with
    anything but a string in the technologies field, the form ends in
    'error' and the world is as it was. *)
Theorem handleSubmit_outcomes (r : readings) (formData : obj) (projectToEdit : option obj)
    (w : world) (errors : gmap string string) :
  validateForm formData = Normal errors →
  (errors ≠ ∅ → handleSubmit r formData projectToEdit w = (Normal (ProjectForm.Rejected errors), w))
  ∧ (errors = ∅ →
     (∀ s, prop formData "technologies" = VStr s →
           ∃ projectToSave savedProject w',
             ProjectForm.projectToSave_of formData projectToEdit = Normal projectToSave
             ∧ save r projectToSave w = (Normal savedProject, w')
             ∧ handleSubmit r formData projectToEdit w
               = (Normal (ProjectForm.Success savedProject), w'))
     ∧ ((∀ s, prop formData "technologies" ≠ VStr s) →
        handleSubmit r formData projectToEdit w = (Normal ProjectForm.Error, w))).
Proof.
  intros Hvalid. unfold ProjectForm.handleSubmit.
  rewrite (bind_eq _ _ w errors w) by (unfold lift; by rewrite Hvalid).
  split.
  - intros Hne. destruct (0 <? size errors)%nat eqn:E; [done |].
    apply Nat.ltb_ge in E. destruct Hne. apply map_size_empty_iff. lia.
  - intros ->. rewrite map_size_empty. cbn [Nat.ltb Nat.leb]. split.
    + intros s Hs.
      destruct (ProjectForm.projectToSave_of formData projectToEdit)
        as [projectToSave | e] eqn:Hpts;
        [| unfold ProjectForm.projectToSave_of in Hpts; by rewrite Hs in Hpts].
      destruct (projectToSave_technologies _ _ _ Hpts) as [xs Hxs].
      destruct (save_shape r projectToSave w) as [[e Hsave] | (ret & ps & Hsave)].
      * exfalso.
        assert (Ht : technologies_of (prop projectToSave "technologies") = Normal (VArr xs))
          by by rewrite Hxs.
        destruct (truthy (prop projectToSave "_id")) eqn:Hid.
        -- by rewrite (save_update_eq r projectToSave w _ Hid Ht) in Hsave.
        -- by rewrite (save_create_eq r projectToSave w _ Hid Ht) in Hsave.
      * eexists projectToSave, ret, _. split; [done |]. split; [exact Hsave |].
        unfold try_catch.
        rewrite (bind_eq _ _ w projectToSave w) by done.
        by rewrite (bind_eq _ _ w ret _ Hsave).
    + intros Hns. unfold try_catch, bind, lift, ProjectForm.projectToSave_of.
      destruct (prop formData "technologies") eqn:E; try done. by destruct (Hns s).
Qed.

Lemma or_null_twice x : or_ (or_ x VNull) VNull = or_ x VNull.
Proof. unfold or_. by destruct (truthy x) eqn:E; [rewrite E |]. Qed.

Lemma edit_without_change_merge r (P : obj) xs s :
  prop P "_id" = VStr s →
  P !! "technologies" = Some (VArr xs) →
  let projectToSave : obj :=
    <["_id" := prop P "_id"]>
      (<["bannerImage" := or_ (prop P "bannerImage") VNull]>
         (<["projectImage" := or_ (prop P "projectImage") VNull]>
            (<["technologies" := VArr xs]> (ProjectForm.formData_of (Some P))))) in
  spread2 P (projectData_of r projectToSave (VArr xs)) = touched r P.
Proof.
  intros Hid Htech. cbv zeta.
  set (projectToSave :=
         <["_id" := prop P "_id"]>
           (<["bannerImage" := or_ (prop P "bannerImage") VNull]>
              (<["projectImage" := or_ (prop P "projectImage") VNull]>
                 (<["technologies" := VArr xs]> (ProjectForm.formData_of (Some P))))) : obj).
  assert (HidP : P !! "_id" = Some (VStr s)).
  { unfold prop in Hid. destruct (P !! "_id") as [v |]; simpl in Hid; by subst. }
  assert (Hb : prop projectToSave "bannerImage" = or_ (prop P "bannerImage") VNull).
  { unfold projectToSave, prop at 1.
    rewrite lookup_insert_ne by done. by rewrite lookup_insert_eq. }
  assert (Hp : prop projectToSave "projectImage" = or_ (prop P "projectImage") VNull).
  { unfold projectToSave, prop at 1.
    rewrite !lookup_insert_ne by done. by rewrite lookup_insert_eq. }
  assert (Hi : projectToSave !! "_id" = P !! "_id").
  { unfold projectToSave. by rewrite lookup_insert_eq, Hid, HidP. }
  assert (Hother : ∀ k, k ≠ "bannerImage" → k ≠ "projectImage" → k ≠ "technologies" →
                        k ≠ "_id" → projectToSave !! k = P !! k).
  { intros k ? ? ? ?. unfold projectToSave, ProjectForm.formData_of.
    by rewrite !lookup_insert_ne. }
  clearbody projectToSave.
  unfold spread2, touched, ProjectService.projectData_of.
  apply map_eq. intros k. rewrite lookup_union.
  destruct (decide (k = "bannerImage")) as [-> | ?].
  { rewrite !lookup_insert_eq, Hb, or_null_twice. by destruct (P !! "bannerImage"). }
  rewrite !(lookup_insert_ne _ "bannerImage") by done.
  destruct (decide (k = "projectImage")) as [-> | ?].
  { rewrite !lookup_insert_eq, Hp, or_null_twice. by destruct (P !! "projectImage"). }
  rewrite !(lookup_insert_ne _ "projectImage") by done.
  destruct (decide (k = "updatedAt")) as [-> | ?].
  { rewrite !lookup_insert_eq. by destruct (P !! "updatedAt"). }
  rewrite !(lookup_insert_ne _ "updatedAt") by done.
  destruct (decide (k = "technologies")) as [-> | ?].
  { rewrite lookup_insert_eq. by rewrite Htech. }
  rewrite !(lookup_insert_ne _ "technologies") by done.
  destruct (decide (k = "_id")) as [-> | ?].
  { rewrite Hi. by destruct (P !! "_id"). }
  rewrite Hother by done. by destruct (P !! k).
Qed.

(** X16. Opening a stored project in the form and submitting it without
    a change.  For a project [P] of the collection with a non-empty string
    id and with normalised technologies, when the form validates: the
    form ends in 'success', and [P] is replaced, in place, by [P] with
    [updatedAt] set to now and with [projectImage] and [bannerImage] set
    to [null] where they were absent or falsy.  Nothing else in [P]
    changes, and the ids of the collection stay as they are. *)
Theorem edit_without_change (r : readings) (w : world) (i : nat) (P : obj)
    (s : string) (xs : list string) :
  projects w !! i = Some P →
  prop P "_id" = VStr s → s ≠ "" →
  P !! "technologies" = Some (VArr xs) →
  Forall normalised xs →
  validateForm (ProjectForm.formData_of (Some P)) = Normal ∅ →
  ∃ savedProject w',
    handleSubmit r (ProjectForm.formData_of (Some P)) (Some P) w
    = (Normal (ProjectForm.Success savedProject), w')
    ∧ projects w' !! i = Some (touched r P)
    ∧ ids (projects w') = ids (projects w)
    ∧ contacts w' = contacts w.
Proof.
  intros HP Hid Hs Htech Hxs Hvalid.
  assert (Htruthy : truthy (prop P "_id") = true).
  { rewrite Hid. simpl. apply String.eqb_neq in Hs. by rewrite Hs. }
  assert (HpropT : prop P "technologies" = VArr xs) by (unfold prop; by rewrite Htech).
  assert (Htext : prop (ProjectForm.formData_of (Some P)) "technologies"
                  = VStr (String.concat ", " xs)).
  { unfold ProjectForm.formData_of, prop at 1.
    rewrite !lookup_insert_ne by done. rewrite lookup_insert_eq. by rewrite HpropT. }
  assert (Himg : ∀ k, k = "bannerImage" ∨ k = "projectImage" →
            prop (ProjectForm.formData_of (Some P)) k = or_ (prop P k) VNull).
  { intros k [-> | ->]; unfold ProjectForm.formData_of, prop at 1.
    - by rewrite lookup_insert_eq.
    - rewrite lookup_insert_ne by done. by rewrite lookup_insert_eq. }
  set (projectToSave :=
         <["_id" := prop P "_id"]>
           (<["bannerImage" := or_ (prop P "bannerImage") VNull]>
              (<["projectImage" := or_ (prop P "projectImage") VNull]>
                 (<["technologies" := VArr xs]> (ProjectForm.formData_of (Some P))))) : obj).
  assert (Hpts : ProjectForm.projectToSave_of (ProjectForm.formData_of (Some P)) (Some P)
                 = Normal projectToSave).
  { unfold ProjectForm.projectToSave_of. rewrite Htext, Htruthy.
    rewrite (form_text_round_trip xs Hxs).
    by rewrite (Himg "bannerImage"), (Himg "projectImage") by auto. }
  assert (HidS : prop projectToSave "_id" = prop P "_id")
    by (unfold projectToSave, prop at 1; by rewrite lookup_insert_eq).
  assert (HtS : technologies_of (prop projectToSave "technologies") = Normal (VArr xs)).
  { unfold projectToSave, prop at 1.
    rewrite !lookup_insert_ne by done. by rewrite lookup_insert_eq. }
  assert (HtruthyS : truthy (prop projectToSave "_id") = true) by by rewrite HidS.
  pose proof (save_update_eq r projectToSave w (VArr xs) HtruthyS HtS) as Hsave.
  cbv zeta in Hsave.
  eexists _, _. split; [| split; [| split]].
  - unfold ProjectForm.handleSubmit.
    rewrite (bind_eq _ _ w ∅ w) by (unfold lift; by rewrite Hvalid).
    rewrite map_size_empty. cbn [Nat.ltb Nat.leb]. unfold try_catch.
    rewrite (bind_eq _ _ w projectToSave w) by (unfold lift; by rewrite Hpts).
    by rewrite (bind_eq _ _ w _ _ Hsave).
  - cbn [projects]. rewrite lookup_merge_into, HP. cbn [fmap option_fmap option_map].
    f_equal. unfold merge_into. rewrite HidS.
    assert (Hself : has_id (prop P "_id") P = true).
    { unfold ProjectService.has_id. rewrite Hid. simpl. apply String.eqb_refl. }
    rewrite Hself. by apply (edit_without_change_merge r P xs s).
  - pose proof (save_update_keeps_ids_aux r projectToSave w (VArr xs) HtruthyS HtS) as Hids.
    by rewrite Hsave in Hids.
  - reflexivity.
Qed.

(** ** The dashboard's list *)

Lemma filter_perm {A} (f : A → bool) (l l' : list A) :
  Permutation l l' → Permutation (List.filter f l) (List.filter f l').
Proof.
  induction 1 as [| x l l' _ IH | x y l | l l' l'' _ IH1 _ IH2]; simpl.
  - done.
  - destruct (f x); [by constructor | done].
  - destruct (f x), (f y); try done. apply perm_swap.
  - by etrans.
Qed.

Lemma findIndex_none {A} (f : A → bool) (l : list A) :
  Forall (fun x => f x = false) l → ProjectAdmin.findIndex f l = None.
Proof. induction 1 as [| x l Hx _ IH]; simpl; [done |]. by rewrite Hx, IH. Qed.

Lemma id_listed (l : list obj) (p : obj) : p ∈ l → prop p "_id" ∈ ids l.
Proof.
  intros Hp. apply list_elem_of_In, (in_map (fun p => prop p "_id")).
  by apply list_elem_of_In.
Qed.

Lemma same_id_same_record (l : list obj) (p q : obj) :
  NoDup (ids l) → p ∈ l → q ∈ l → prop p "_id" = prop q "_id" → p = q.
Proof.
  induction l as [| x l IH]; [by intros _ ?%elem_of_nil |].
  change (ids (x :: l)) with (prop x "_id" :: ids l).
  rewrite NoDup_cons. intros [Hx Hl] Hp Hq Heq.
  apply elem_of_cons in Hp as [Hp | Hp]; apply elem_of_cons in Hq as [Hq | Hq].
  - congruence.
  - subst p. destruct Hx. rewrite Heq. by apply id_listed.
  - subst q. destruct Hx. rewrite <- Heq. by apply id_listed.
  - by apply IH.
Qed.

Lemma has_id_eq id p : has_id id p = true → prop p "_id" = id.
Proof. apply strict_eq_true. Qed.

Lemma handleSave_is_map (projectData : obj) (id : value) (P savedProject : obj)
    (l : list obj) :
  NoDup (ids l) → P ∈ l → has_id id P = true →
  prop savedProject "_id" = id → savedProject = spread2 P projectData →
  ProjectAdmin.handleSave savedProject l = List.map (merge_into projectData id) l.
Proof.
  intros Hnd HP HidP Hsaved ->. unfold ProjectAdmin.handleSave. rewrite Hsaved.
  change (fun p : obj => strict_eq (prop p "_id") id) with (has_id id).
  induction l as [| x l IH]; [by apply elem_of_nil in HP |].
  cbn [ProjectAdmin.findIndex List.map].
  destruct (has_id id x) eqn:Hx.
  - assert (x = P) as ->.
    { apply (same_id_same_record (x :: l)); [done | by left | done |].
      by rewrite (has_id_eq _ _ Hx), (has_id_eq _ _ HidP). }
    cbn [insert list_insert]. unfold merge_into at 1. rewrite HidP. f_equal.
    symmetry. apply map_id_Forall, Forall_forall. intros q Hq.
    unfold merge_into. destruct (has_id id q) eqn:Hidq; [| done].
    exfalso. change (ids (P :: l)) with (prop P "_id" :: ids l) in Hnd.
    apply NoDup_cons in Hnd as [Hnot _].
    apply Hnot. rewrite (has_id_eq _ _ HidP), <- (has_id_eq _ _ Hidq).
    by apply id_listed.
  - assert (HPl : P ∈ l).
    { apply elem_of_cons in HP as [-> | HP]; [congruence | done]. }
    assert (Hndl : NoDup (ids l)).
    { change (ids (x :: l)) with (prop x "_id" :: ids l) in Hnd.
      by apply NoDup_cons in Hnd as [_ ?]. }
    specialize (IH Hndl HPl).
    unfold merge_into at 1. rewrite Hx.
    destruct (ProjectAdmin.findIndex (has_id id) l) as [i |]; simpl.
    + by rewrite <- IH.
    + apply (f_equal length) in IH. rewrite length_map in IH. simpl in IH. lia.
Qed.

(** X17. The list of the dashboard stays in step with the service.  When
    the list holds the records of the project collection (in any order)
    and the ids of the collection are pairwise distinct: the list that
    [fetchProjects] sets holds them too; after [handleDelete] the list
    holds the records the service has left; and after a [save] that
    returned a record, [handleSave] with that record makes the list hold
    the records the service now has, provided the id a create would
    generate is not yet in the collection. *)
Theorem admin_list_stays_in_step (w : world) (prevProjects : list obj) :
  Permutation prevProjects (projects w) →
  NoDup (ids (projects w)) →
  (∃ l, fetchProjects w = (Normal l, w) ∧ Permutation l (projects w))
  ∧ (∀ id, ∃ l w',
       handleDelete id prevProjects w = (Normal l, w')
       ∧ w' = snd (delete id w)
       ∧ Permutation l (projects w'))
  ∧ (∀ r project savedProject w',
       save r project w = (Normal (Some savedProject), w') →
       VStr ("p" ++ Date_now r ++ Math_random r) ∉ ids (projects w) →
       Permutation (ProjectAdmin.handleSave savedProject prevProjects) (projects w')).
Proof.
  intros Hperm Hnd. split; [| split].
  - eexists. split; [reflexivity |]. apply sort_perm.
  - intros id. eexists _, _. unfold ProjectAdmin.handleDelete, try_catch.
    rewrite (bind_eq _ _ _ _ _ (delete_eq id w)). cbv zeta.
    split; [reflexivity |]. rewrite delete_eq. cbv zeta.
    split; [reflexivity |]. cbn [projects]. by apply filter_perm.
  - intros r project savedProject w' Hsave Hfresh.
    assert (Hndp : NoDup (ids prevProjects)).
    { unfold ids. by rewrite Hperm. }
    destruct (technologies_of (prop project "technologies")) as [t | e] eqn:Ht;
      [| by rewrite (save_throws r project w e Ht) in Hsave].
    destruct (truthy (prop project "_id")) eqn:Hid.
    + rewrite (save_update_eq r project w t Hid Ht) in Hsave. cbv zeta in Hsave.
      injection Hsave as Hfind <-. cbn [projects].
      rewrite find_merge_into in Hfind by (done || apply projectData_id).
      destruct (List.find (has_id (prop project "_id")) (projects w))
        as [P |] eqn:HP; [| discriminate].
      injection Hfind as <-.
      apply find_some in HP as [HPin HPid].
      rewrite (handleSave_is_map (projectData_of r project t) (prop project "_id") P).
      * by apply Permutation_map.
      * done.
      * apply list_elem_of_In. apply (Permutation_in _ (Permutation_sym Hperm) HPin).
      * done.
      * apply has_id_eq, has_id_merged; [done | apply projectData_id | done].
      * done.
    + rewrite (save_create_eq r project w t Hid Ht) in Hsave. cbv zeta in Hsave.
      injection Hsave as <- <-. cbn [projects].
      unfold ProjectAdmin.handleSave. rewrite findIndex_none; [by constructor |].
      apply Forall_forall. intros p Hp.
      destruct (strict_eq (prop p "_id") _) eqn:E; [| done].
      exfalso. apply Hfresh. apply strict_eq_true in E.
      unfold prop at 2 in E. rewrite lookup_insert_ne, lookup_insert_eq in E by done.
      cbv [default from_option id] in E. rewrite <- E.
      apply id_listed, list_elem_of_In, (Permutation_in _ Hperm). by apply list_elem_of_In.
Qed.

(** ** The project list *)

Lemma filter_NoDup {A} (f : A → bool) (l : list A) : NoDup l → NoDup (List.filter f l).
Proof.
  induction 1 as [| x l Hx _ IH]; simpl; [constructor |].
  destruct (f x); [| done]. constructor; [| done].
  intros Hin. apply Hx. apply list_elem_of_In, filter_In in Hin as [Hin _].
  by apply list_elem_of_In.
Qed.

Lemma Set_elem (l : list value) v : v ∈ ProjectList.Set_ l ↔ v ∈ l.
Proof.
  induction l as [| x l IH]; simpl; [done |].
  rewrite !elem_of_cons, list_elem_of_In, filter_In, <- list_elem_of_In, IH.
  split.
  - intros [-> | [Hv _]]; auto.
  - intros [-> | Hv]; [by left |].
    destruct (strict_eq v x) eqn:E; [left; by apply strict_eq_true |].
    by right.
Qed.

Lemma Set_NoDup (l : list value) :
  Forall (fun v => strict_eq v v = true) l → NoDup (ProjectList.Set_ l).
Proof.
  induction 1 as [| x l Hx _ IH]; simpl; [constructor |].
  constructor; [| by apply filter_NoDup].
  intros Hin. apply list_elem_of_In, filter_In in Hin as [_ Hin]. by rewrite Hx in Hin.
Qed.

Lemma technologies_or_none_self_equal p :
  Forall (fun v => strict_eq v v = true) (ProjectList.technologies_or_none p).
Proof.
  unfold ProjectList.technologies_or_none.
  destruct (prop p "technologies") as [| | b | n | s | xs | h] eqn:E; simpl;
    try by constructor.
  - destruct b; repeat constructor.
  - destruct (n =? 0) eqn:En; simpl; repeat constructor. simpl. apply Z.eqb_refl.
  - destruct (String.eqb s ""); simpl; repeat constructor. simpl. apply String.eqb_refl.
  - apply Forall_forall. intros v Hv.
    apply list_elem_of_In, in_map_iff in Hv as (x & <- & _). simpl. apply String.eqb_refl.
  - repeat constructor. simpl. apply Pos.eqb_refl.
Qed.

Lemma compare_cases (a b : string) :
  (String.compare a b = Eq ∧ String.compare b a = Eq)
  ∨ (String.compare a b = Lt ∧ String.compare b a = Gt)
  ∨ (String.compare a b = Gt ∧ String.compare b a = Lt).
Proof.
  pose proof (String.compare_antisym a b) as H.
  destruct (String.compare b a); simpl in H; rewrite H; auto.
Qed.

Lemma by_string_le x y : SortCompare by_string x y ≤ 0 → text_le x y.
Proof.
  unfold SortCompare, ProjectList.by_string, text_le, String.leb, String.ltb.
  destruct (compare_cases (ToString x) (ToString y)) as [[H1 H2] | [[H1 H2] | [H1 H2]]];
    rewrite ?H1, ?H2; simpl; [done | done | lia].
Qed.

Lemma by_string_gt x y : ¬ SortCompare by_string x y ≤ 0 → text_le y x.
Proof.
  unfold SortCompare, ProjectList.by_string, text_le, String.leb, String.ltb.
  destruct (compare_cases (ToString x) (ToString y)) as [[H1 H2] | [[H1 H2] | [H1 H2]]];
    rewrite ?H1, ?H2; simpl; [lia | lia | done].
Qed.

Lemma insert_sorted_text x l :
  Sorted text_le l → Sorted text_le (insert_sorted by_string x l).
Proof.
  induction l as [| y l IH]; intros Hs; simpl; [by repeat constructor |].
  destruct (Z.leb_spec (SortCompare by_string x y) 0) as [Hle | Hgt].
  - constructor; [done |]. constructor. by apply by_string_le.
  - apply Sorted_inv in Hs as [Hs Hhd]. constructor; [by apply IH |].
    assert (Hyx : text_le y x) by (apply by_string_gt; lia).
    destruct l as [| z l]; simpl; [by constructor |].
    destruct (SortCompare by_string x z <=? 0); constructor; [done |].
    by apply HdRel_inv in Hhd.
Qed.

Lemma sort_text l : Sorted text_le (sort by_string l).
Proof.
  induction l as [| x l IH]; simpl; [constructor |].
  fold (sort by_string l). by apply insert_sorted_text.
Qed.

(** X18. The technology facets: [uniqueTechnologies] is 'All' followed by
    a list without repetition, in ascending order of text, that holds
    exactly the values that [flatMap] takes from the projects; so every
    entry of a project's technologies array is a facet. *)
Theorem uniqueTechnologies_facets (ps : list obj) :
  ∃ uniqueTechs,
    uniqueTechnologies ps = VStr "All" :: uniqueTechs
    ∧ NoDup uniqueTechs
    ∧ Sorted text_le uniqueTechs
    ∧ (∀ v, v ∈ uniqueTechs ↔ ∃ p, p ∈ ps ∧ v ∈ ProjectList.technologies_or_none p)
    ∧ (∀ p xs tech, p ∈ ps → prop p "technologies" = VArr xs → tech ∈ xs →
                    VStr tech ∈ uniqueTechs).
Proof.
  set (allTechnologies := List.concat (List.map ProjectList.technologies_or_none ps)).
  exists (sort by_string (ProjectList.Set_ allTechnologies)).
  pose proof (sort_perm by_string (ProjectList.Set_ allTechnologies)) as Hperm.
  assert (Hall : ∀ v, v ∈ allTechnologies
                      ↔ ∃ p, p ∈ ps ∧ v ∈ ProjectList.technologies_or_none p).
  { intros v. unfold allTechnologies. rewrite list_elem_of_In, in_concat. split.
    - intros (l & Hl & Hv). apply in_map_iff in Hl as (p & <- & Hp).
      exists p. by rewrite !list_elem_of_In.
    - intros (p & Hp & Hv). exists (ProjectList.technologies_or_none p).
      split; [apply in_map | ]; by apply list_elem_of_In. }
  assert (Hmem : ∀ v, v ∈ sort by_string (ProjectList.Set_ allTechnologies)
                      ↔ ∃ p, p ∈ ps ∧ v ∈ ProjectList.technologies_or_none p).
  { intros v. by rewrite Hperm, Set_elem. }
  split; [reflexivity |]. split; [| split; [apply sort_text | split; [exact Hmem |]]].
  - rewrite Hperm. apply Set_NoDup. unfold allTechnologies.
    apply Forall_forall. intros v Hv. apply Hall in Hv as (p & _ & Hv).
    pose proof (technologies_or_none_self_equal p) as Hp.
    rewrite Forall_forall in Hp. by apply Hp.
  - intros p xs tech Hp Hxs Htech. apply Hmem. exists p. split; [done |].
    unfold ProjectList.technologies_or_none. rewrite Hxs.
    apply list_elem_of_In, in_map. by apply list_elem_of_In.
Qed.

(** *** The filter and the search *)

Lemma filter__normal {A} (callback : A → completion bool) (l k : list A) :
  ProjectList.filter_ callback l = Normal k → k = List.filter (kept callback) l.
Proof.
  revert k. induction l as [| x l IH]; simpl; intros k; [by intros [= <-] |].
  unfold kept at 1. destruct (callback x) as [keep | e]; [| discriminate].
  destruct (ProjectList.filter_ callback l) as [k' | e]; [| discriminate].
  intros [= <-]. rewrite (IH k' eq_refl). by destruct keep.
Qed.

Lemma filter__throws {A} (callback : A → completion bool) (l : list A) (x : A) :
  (∀ y e, callback y = Throw e → e = TypeError) →
  x ∈ l → callback x = Throw TypeError →
  ProjectList.filter_ callback l = Throw TypeError.
Proof.
  intros Honly Hx Hthrow. induction l as [| y l IH]; [by apply elem_of_nil in Hx |].
  simpl. destruct (callback y) as [keep | e] eqn:Ey.
  - apply elem_of_cons in Hx as [-> | Hx]; [congruence |]. by rewrite (IH Hx).
  - by rewrite (Honly y e Ey).
Qed.

Lemma filter_sublist {A} (f : A → bool) (l : list A) : sublist (List.filter f l) l.
Proof.
  induction l as [| x l IH]; simpl; [constructor |]. destruct (f x); by constructor.
Qed.

Lemma matches_term_throws term p e :
  ProjectList.matches_term term p = Throw e → e = TypeError.
Proof.
  unfold ProjectList.matches_term, ProjectList.text_includes,
    ProjectList.some_technology_includes.
  destruct (prop p "title"); try (by intros [= <-]).
  destruct (ProjectList.includes _ term); [discriminate |].
  destruct (prop p "description"); try (by intros [= <-]).
  destruct (ProjectList.includes _ term); [discriminate |].
  destruct (prop p "technologies") as [| | b | n | techs | xs | h];
    simpl; try discriminate.
  - destruct b; [by intros [= <-] | discriminate].
  - destruct (n =? 0); simpl; [discriminate | by intros [= <-]].
  - destruct (String.eqb techs ""); simpl; [discriminate | by intros [= <-]].
  - by intros [= <-].
Qed.

(** X19. What [filteredProjects] shows, when it completes: a sublist of
    the projects (nothing added, nothing reordered), holding exactly the
    projects that pass the technology filter, unless 'All' is selected,
    and also pass the search, unless the term is empty.  With 'All' and an
    empty term it is the whole list. *)
Theorem filteredProjects_selects (ps : list obj) (selectedTechnology term : string)
    (filtered : list obj) :
  ProjectList.filteredProjects ps selectedTechnology term = Normal filtered →
  sublist filtered ps
  ∧ (∀ p, p ∈ filtered ↔
          p ∈ ps
          ∧ (selectedTechnology = "All"
             ∨ ProjectList.has_technology selectedTechnology p = Normal true)
          ∧ (term = ""
             ∨ ProjectList.matches_term (ProjectList.toLowerCase term) p = Normal true))
  ∧ (selectedTechnology = "All" → term = "" → filtered = ps).
Proof using Type.
  unfold ProjectList.filteredProjects. intros H.
  assert (Hkept : ∀ {A} (f : A → completion bool) x, kept f x = true ↔ f x = Normal true).
  { intros A f x. unfold kept. destruct (f x) as [[] |]; split; congruence. }
  set (byTech := fun p : obj =>
         String.eqb selectedTechnology "All"
         || kept (ProjectList.has_technology selectedTechnology) p).
  set (byTerm := fun p : obj =>
         String.eqb term ""
         || kept (ProjectList.matches_term (ProjectList.toLowerCase term)) p).
  assert (HT : List.filter byTech ps
               = if String.eqb selectedTechnology "All" then ps
                 else List.filter (kept (ProjectList.has_technology selectedTechnology)) ps).
  { unfold byTech. destruct (String.eqb selectedTechnology "All"); simpl; [| done].
    apply filter_all_true. by apply Forall_forall. }
  assert (HS : ∀ l, List.filter byTerm l
                    = if String.eqb term "" then l
                      else List.filter
                             (kept (ProjectList.matches_term (ProjectList.toLowerCase term))) l).
  { intros l. unfold byTerm. destruct (String.eqb term ""); simpl; [| done].
    apply filter_all_true. by apply Forall_forall. }
  assert (Heq : filtered = List.filter byTerm (List.filter byTech ps)).
  { rewrite HS, HT. simpl in H.
    destruct (String.eqb selectedTechnology "All").
    - destruct (String.eqb term ""); simpl in H; [by injection H |].
      by apply filter__normal in H.
    - destruct (ProjectList.filter_ _ ps) as [byTechList |] eqn:E1; [| discriminate].
      apply filter__normal in E1. subst byTechList.
      destruct (String.eqb term ""); simpl in H; [by injection H |].
      by apply filter__normal in H. }
  split; [| split].
  - rewrite Heq. etrans; apply filter_sublist.
  - intros p. rewrite Heq, !list_elem_of_In, !filter_In. unfold byTech, byTerm.
    rewrite !orb_true_iff, !Hkept, !String.eqb_eq.
    split; [intros [[? ?] ?] | intros (? & ? & ?)]; repeat split; assumption.
  - intros -> ->. by rewrite Heq, HS, HT.
Qed.

(** X20. Searching throws on a project without text in [title]: with
    'All' selected and a term that is not empty, when some project of the
    list has a [title] that is not a string (a missing one included),
    [filteredProjects] throws a TypeError instead of returning a list. *)
Theorem search_throws_without_title (ps : list obj) (term : string) (p : obj) :
  term ≠ "" →
  p ∈ ps →
  (∀ s, prop p "title" ≠ VStr s) →
  ProjectList.filteredProjects ps "All" term = Throw TypeError.
Proof.
  intros Hterm Hp Htitle. unfold ProjectList.filteredProjects. simpl.
  apply String.eqb_neq in Hterm. rewrite Hterm. simpl.
  apply (filter__throws _ _ p); [intros y e; apply matches_term_throws | done |].
  unfold ProjectList.matches_term, ProjectList.text_includes.
  destruct (prop p "title") eqn:E; try done. by destruct (Htitle s).
Qed.

(** ** The admin login *)

Lemma step_keeps_logged_out e s :
  no_password e → truthy (App.isAdminLoggedIn s) = false →
  truthy (App.isAdminLoggedIn (App_step e s)) = false.
Proof.
  intros He Hs. destruct e as [newPage | | password | | |]; simpl; try done.
  - by rewrite Hs.
  - destruct (String.eqb password CONFIG.ADMIN_PASSWORD) eqn:E; [| done].
    apply String.eqb_eq in E. subst password. by destruct He.
Qed.

(** X21. The dashboard is behind the login.  [renderPage] returns the
    dashboard only on the page 'admin' with the login flag truthy.  From
    a state where the flag is falsy, no sequence of events without a
    submission of the admin password makes it truthy, so none reaches the
    dashboard, whatever pages it navigates to.  A submission of the admin
    password sets the flag, closes the modal and shows the dashboard;
    [handleLogout] clears the flag and shows the home page. *)
Theorem dashboard_needs_login (s : App.state) :
  (App.renderPage s = App.ProjectAdmin →
     App.page s = "admin" ∧ truthy (App.isAdminLoggedIn s) = true)
  ∧ (truthy (App.isAdminLoggedIn s) = false →
     ∀ events, Forall no_password events →
       truthy (App.isAdminLoggedIn (App_steps events s)) = false
       ∧ App.renderPage (App_steps events s) ≠ App.ProjectAdmin)
  ∧ (let s' := App_step (App.PasswordModal_handleSubmit CONFIG.ADMIN_PASSWORD) s in
     App.isAdminLoggedIn s' = VBool true
     ∧ App.showPasswordModal s' = false
     ∧ App.renderPage s' = App.ProjectAdmin)
  ∧ (let s' := App_step App.handleLogout s in
     App.isAdminLoggedIn s' = VBool false
     ∧ App.renderPage s' = App.Home).
Proof.
  assert (Hrender : ∀ s', App.renderPage s' = App.ProjectAdmin →
            App.page s' = "admin" ∧ truthy (App.isAdminLoggedIn s') = true).
  { intros s'. unfold App.renderPage.
    destruct (String.eqb (App.page s') "admin") eqn:E; [| discriminate].
    apply String.eqb_eq in E.
    by destruct (truthy (App.isAdminLoggedIn s')). }
  split; [apply Hrender |]. split; [| split].
  - intros Hs events Hevents.
    assert (Hout : truthy (App.isAdminLoggedIn (App_steps events s)) = false).
    { revert s Hs. induction Hevents as [| e events He _ IH]; intros s Hs; [done |].
      apply IH. by apply step_keeps_logged_out. }
    split; [done |]. intros Hr. apply Hrender in Hr as [_ Hr]. congruence.
  - done.
  - done.
Qed.

(** X22. The login flag lives in storage under 'admin-login'.  After a
    submission of the admin password, when storage takes the write and
    the host reads back the text it wrote for [true], the component
    mounted on the storage left is logged in; and on any storage whose
    text under 'admin-login' parses to a truthy value, the component
    mounts logged in and [handleAdminAccessAttempt] shows the dashboard
    with no password asked. *)
Theorem login_is_read_from_storage (s : App.state) (items : gmap string string) :
  (App.storage_ s = Available items →
   quota_exceeded items "admin-login" (JSON_stringify_value (VBool true)) = false →
   JSON_stringify_value (VBool true) ≠ "" →
   JSON_parse_value (JSON_stringify_value (VBool true)) = Normal (VBool true) →
   App.isAdminLoggedIn
     (App_mount
        (App.storage_ (App_step (App.PasswordModal_handleSubmit CONFIG.ADMIN_PASSWORD) s)))
   = VBool true)
  ∧ (∀ item v,
       items !! "admin-login" = Some item → item ≠ "" →
       JSON_parse_value item = Normal v → truthy v = true →
       let s0 := App_mount (Available items) in
       App.isAdminLoggedIn s0 = v
       ∧ App.showPasswordModal (App_step App.handleAdminAccessAttempt s0) = false
       ∧ App.renderPage (App_step App.handleAdminAccessAttempt s0) = App.ProjectAdmin).
Proof.
  split.
  - intros Hst Hquota Hne Hparse. simpl. rewrite Hst. simpl. rewrite Hquota.
    unfold App.mount, App.useLocalStorage_initial. simpl.
    rewrite lookup_insert_eq. apply String.eqb_neq in Hne. by rewrite Hne, Hparse.
  - intros item v Hitem Hne Hparse Hv. cbv zeta.
    assert (H0 : App.isAdminLoggedIn (App_mount (Available items)) = v).
    { unfold App.mount, App.useLocalStorage_initial. simpl.
      rewrite Hitem. apply String.eqb_neq in Hne. by rewrite Hne, Hparse. }
    split; [done |]. unfold App.step. rewrite H0, Hv. split; [done |].
    unfold App.renderPage. simpl. by rewrite Hv.
Qed.

(** *** What is created is listed first *)

Lemma sort_newest_at_front (x : obj) (now : Z) (records : list obj) :
  created x = Some now →
  Forall (not_newer now) records →
  sort by_createdAt (x :: records) = x :: sort by_createdAt records.
Proof.
  intros Hx Hall. change (sort by_createdAt (x :: records))
    with (insert_sorted by_createdAt x (sort by_createdAt records)).
  pose proof (sort_perm by_createdAt records) as Hperm.
  destruct (sort by_createdAt records) as [| y l] eqn:E; [done |].
  simpl. assert (Hy : not_newer now y).
  { rewrite Forall_forall in Hall. apply Hall, list_elem_of_In.
    apply (Permutation_in _ Hperm). by left. }
  destruct Hy as (ty & Hy & Hle).
  unfold SortCompare, ProjectService.by_createdAt, ProjectService.minus.
  fold (created y). fold (created x). rewrite Hx, Hy. simpl.
  destruct (Z.leb_spec (ty - now) 0); [done | lia].
Qed.

(** X23. A record just created is listed first.  When the clock reading
    that [save] stamps on a new project is a date that can be read, and
    every project of the collection has a creation date that can be read
    and is not later, [fetchAll] after the create returns the new project
    followed by what [fetchAll] returned before; and so for [contact]
    and [getContacts]. *)
Theorem created_is_listed_first (w : world) (r : readings) :
  (∀ project t now,
     truthy (prop project "_id") = false →
     technologies_of (prop project "technologies") = Normal t →
     new_Date (VStr (toISOString_2 r)) = Some now →
     Forall (not_newer now) (projects w) →
     ∃ newProject w' l,
       save r project w = (Normal (Some newProject), w')
       ∧ fetchAll w = (Normal l, w)
       ∧ fetchAll w' = (Normal (newProject :: l), w'))
  ∧ (∀ data now,
       new_Date (VStr (toISOString_1 r)) = Some now →
       Forall (not_newer now) (contacts w) →
       ∃ ack w' l,
         contact r data w = (Normal ack, w')
         ∧ getContacts w = (Normal l, w)
         ∧ (∃ message, getContacts w' = (Normal (message :: l), w')
                       ∧ prop message "_id" = prop ack "contactId")).
Proof.
  split.
  - intros project t now Hid Ht Hnow Hall. eexists _, _, _.
    split; [apply (save_create_eq r project w t Hid Ht) |]. cbv zeta.
    split; [reflexivity |].
    unfold ProjectService.fetchAll, bind, delay, ret, get_world. cbn [projects].
    rewrite (sort_newest_at_front _ now); [done | | done].
    unfold created, prop at 1. by rewrite lookup_insert_eq.
  - intros data now Hnow Hall. eexists _, _, _.
    split; [apply contact_eq |]. cbv zeta. split; [reflexivity |].
    exists (contactData_of r data).
    unfold ProjectService.getContacts, bind, delay, ret, get_world. cbn [contacts].
    rewrite (sort_newest_at_front _ now); [| | done].
    + split; [done |]. destruct (contactData_fields r data) as (-> & _).
      unfold acknowledgement, prop. rewrite !lookup_insert_ne by done.
      by rewrite lookup_singleton_eq.
    + unfold created, prop at 1, contactData_of.
      rewrite !lookup_insert_ne by done. by rewrite lookup_insert_eq.
Qed.

(** *** What the project form accepts *)

Lemma required_text_empty name least missing short formData errors :
  ProjectForm.required_text name least missing short formData errors = Normal ∅
  ↔ errors = ∅ ∧ acceptable_text name least formData.
Proof.
  unfold ProjectForm.required_text, acceptable_text.
  destruct (prop formData name) as [| | b | n | text | xs | h];
    try (split; [intros [= H]; by apply insert_non_empty in H
                | intros [_ (? & ? & _)]; discriminate]);
    try (split; [discriminate | intros [_ (? & ? & _)]; discriminate]).
  destruct (String.eqb (trim text) "") eqn:Etrim.
  - apply String.eqb_eq in Etrim. split.
    + intros [= H]. by apply insert_non_empty in H.
    + intros [_ (? & [= <-] & Hne & _)]. done.
  - apply String.eqb_neq in Etrim.
    destruct (Nat.ltb_spec (String.length text) least) as [Hlt | Hge]; split.
    + intros [= H]. by apply insert_non_empty in H.
    + intros [_ (? & [= <-] & _ & Hle)]. lia.
    + intros [= ->]. split; [done |]. by exists text.
    + by intros [-> _].
Qed.

Lemma optional_url_empty name formData errors :
  ProjectForm.optional_url URL_accepts name formData errors = ∅
  ↔ errors = ∅ ∧ acceptable_url name formData.
Proof.
  unfold ProjectForm.optional_url, ProjectForm.isValidUrl, acceptable_url.
  destruct (truthy (prop formData name)), (URL_accepts (prop formData name)); simpl;
    split; try (intros H; by apply insert_non_empty in H); try (by intros [-> _]);
    try (intros ->; split; [done |]; auto); try (intros [_ [? | ?]]; discriminate).
Qed.

(** X24. What [validateForm] lets through.  It returns no error exactly
    when the title is a string that is not blank and has 3 characters or
    more, the description is a string that is not blank and has 10
    characters or more (white space counted in both lengths), and each of
    [liveUrl] and [githubUrl] is empty or accepted by [new URL]. *)
Theorem validateForm_accepts (formData : obj) :
  validateForm formData = Normal ∅
  ↔ acceptable_text "title" 3 formData
    ∧ acceptable_text "description" 10 formData
    ∧ acceptable_url "liveUrl" formData
    ∧ acceptable_url "githubUrl" formData.
Proof.
  unfold ProjectForm.validateForm.
  destruct (ProjectForm.required_text "title" _ _ _ formData ∅) as [e1 | x] eqn:E1.
  - destruct (ProjectForm.required_text "description" _ _ _ formData e1)
      as [e2 | x] eqn:E2.
    + split.
      * intros [= H]. apply optional_url_empty in H as [H Hgit].
        apply optional_url_empty in H as [-> Hlive].
        apply required_text_empty in E2 as [-> Hdescription].
        apply required_text_empty in E1 as [_ Htitle]. done.
      * intros (Htitle & Hdescription & Hlive & Hgit).
        assert (e1 = ∅) as ->.
        { pose proof (proj2 (required_text_empty "title" 3 "Title is required"
                     "Title must be at least 3 characters" formData ∅)
                     (conj eq_refl Htitle)) as H. congruence. }
        assert (e2 = ∅) as ->.
        { pose proof (proj2 (required_text_empty "description" 10
                     "Description is required"
                     "Description must be at least 10 characters" formData ∅)
                     (conj eq_refl Hdescription)) as H. congruence. }
        f_equal. apply optional_url_empty. split; [| done].
        by apply optional_url_empty.
    + split; [discriminate |]. intros (_ & Hdescription & _).
      destruct Hdescription as (text & Htext & _).
      unfold ProjectForm.required_text in E2. rewrite Htext in E2.
      destruct (String.eqb (trim text) ""); [discriminate |].
      by destruct (String.length text <? 10)%nat.
  - split; [discriminate |]. intros (Htitle & _).
    destruct Htitle as (text & Htext & _).
    unfold ProjectForm.required_text in E1. rewrite Htext in E1.
    destruct (String.eqb (trim text) ""); [discriminate |].
    by destruct (String.length text <? 3)%nat.
Qed.

(** *** The contact form *)

Lemma ContactForm_validateForm_eq formData n e m :
  prop formData "name" = VStr n →
  prop formData "email" = VStr e →
  prop formData "message" = VStr m →
  ∃ errors, ContactForm.validateForm formData = Normal errors
            ∧ (errors = ∅ ↔ sendable n e m = true).
Proof.
  intros Hn He Hm. unfold ContactForm.validateForm, sendable.
  rewrite Hn, He, Hm. eexists. split; [reflexivity |].
  destruct (String.eqb (trim n) ""), (String.eqb (trim e) ""),
    (ContactForm.email_pattern_test e), (String.eqb (trim m) ""),
    (String.length m <? 10)%nat; cbn [negb andb];
    split; try done; intros H; by apply insert_non_empty in H.
Qed.

(** X25. The two ways the contact form's [handleSubmit] ends, for a form
    whose three fields are strings.  When name, email and message are not
    blank, the email matches the pattern and the message has 10
    characters or more, the form data is stored as a new unread message
    in front of the collection, the form is reset and shows the text that
    [contact] returned.  Otherwise the form shows its errors, and the
    collections and the storage are as they were.  It never ends in
    'error', even when the storage cannot be used. *)
Theorem contact_form_outcomes (r : readings) (formData : obj) (w : world) (n e m : string) :
  prop formData "name" = VStr n →
  prop formData "email" = VStr e →
  prop formData "message" = VStr m →
  (sendable n e m = true →
   ∃ w', ContactForm_handleSubmit r formData w
         = (Normal (ContactForm.Success (prop (acknowledgement r) "message"),
                    ContactForm.initialFormData), w')
         ∧ contacts w' = contactData_of r formData :: contacts w
         ∧ projects w' = projects w)
  ∧ (sendable n e m = false →
     ContactForm_handleSubmit r formData w = (Normal (ContactForm.Rejected, formData), w))
  ∧ (∀ shown, fst (ContactForm_handleSubmit r formData w) ≠ Normal (ContactForm.Error, shown)).
Proof.
  intros Hn He Hm.
  destruct (ContactForm_validateForm_eq formData n e m Hn He Hm) as (errors & Hvalid & Hempty).
  assert (Hsent : sendable n e m = true →
            ContactForm_handleSubmit r formData w
            = (Normal (ContactForm.Success (prop (acknowledgement r) "message"),
                       ContactForm.initialFormData),
               World (projects w) (contactData_of r formData :: contacts w)
                 (contacts_text (contactData_of r formData :: contacts w) (localStorage w)))).
  { intros Hs. apply Hempty in Hs as ->. unfold ContactForm.handleSubmit.
    rewrite (bind_eq _ _ w ∅ w) by (unfold lift; by rewrite Hvalid).
    rewrite map_size_empty. cbn [Nat.ltb Nat.leb]. unfold try_catch.
    by rewrite (bind_eq _ _ w (acknowledgement r) _ (contact_eq r formData w)). }
  assert (Hrejected : sendable n e m = false →
            ContactForm_handleSubmit r formData w
            = (Normal (ContactForm.Rejected, formData), w)).
  { intros Hs. unfold ContactForm.handleSubmit.
    rewrite (bind_eq _ _ w errors w) by (unfold lift; by rewrite Hvalid).
    destruct (0 <? size errors)%nat eqn:E; [done |].
    apply Nat.ltb_ge in E. assert (errors = ∅) as Hnone by (apply map_size_empty_iff; lia).
    apply Hempty in Hnone. congruence. }
  split; [| split].
  - intros Hs. eexists. split; [by apply Hsent | done].
  - exact Hrejected.
  - intros shown. destruct (sendable n e m).
    + by rewrite Hsent.
    + by rewrite Hrejected.
Qed.

End Properties.

(** ** The properties on concrete inputs *)

Import Demo.

Local Abbreviation save := (ProjectService.save JSON_stringify quota_exceeded).
Local Abbreviation delete := (ProjectService.delete JSON_stringify quota_exceeded).
Local Abbreviation markAsRead := (ProjectService.markAsRead JSON_stringify quota_exceeded).
Local Abbreviation markAsReplied :=
  (ProjectService.markAsReplied JSON_stringify quota_exceeded).
Local Abbreviation calls := (ProjectService.calls JSON_stringify quota_exceeded).

Ltac by_computation := vm_compute; reflexivity.

Ltac each_by_computation :=
  repeat (constructor; [by_computation |]); constructor.

(** The update [retitle] of the stored project [shop] keeps its
    description and its creation date. *)
Lemma save_update_merges_witness :
  truthy (prop retitle "_id") = true
  ∧ ProjectService.technologies_of (prop retitle "technologies")
    = Normal (VArr ["React"; "Node.js"])
  ∧ projects with_shop !! 0%nat = Some shop
  ∧ ProjectService.has_id (prop retitle "_id") shop = true
  ∧ ∃ w' returned,
      save now retitle with_shop = (Normal (Some returned), w')
      ∧ projects w' !! 0%nat = Some returned
      ∧ returned !! "technologies" = Some (VArr ["React"; "Node.js"])
      ∧ returned !! "updatedAt" = Some (VStr "2025-06-01T10:00:00.000Z")
      ∧ returned !! "description" = shop !! "description"
      ∧ returned !! "createdAt" = shop !! "createdAt".
Proof.
  assert (H1 : truthy (prop retitle "_id") = true) by by_computation.
  assert (H2 : ProjectService.technologies_of (prop retitle "technologies")
               = Normal (VArr ["React"; "Node.js"])) by by_computation.
  assert (H3 : projects with_shop !! 0%nat = Some shop) by reflexivity.
  assert (H4 : ProjectService.has_id (prop retitle "_id") shop = true) by by_computation.
  repeat (split; [assumption |]).
  destruct (save_update_merges JSON_stringify quota_exceeded now retitle with_shop
              0%nat shop _ H1 H2 H3 H4)
    as (w' & P' & returned & Hsave & HP' & _ & _ & _ & _ & Htech & Hupdated & _ & _
        & Hkept & Hcreated & _ & _ & _ & Hfirst).
  assert (Hret : returned = P') by (apply Hfirst; by_computation).
  exists w', returned. rewrite Hret.
  split; [by rewrite <- Hret |]. split; [exact HP' |].
  split; [exact Htech |]. split; [exact Hupdated |].
  split.
  - apply Hkept; [| by_computation].
    unfold written_by_save. rewrite !elem_of_cons, elem_of_nil.
    intros [? | [? | [? | [? | []]]]]; discriminate.
  - apply Hcreated. by_computation.
Defined.

(** C1 fails as stated: [retitle] carries neither [projectImage] nor
    [bannerImage], and the stored project loses both. *)
Lemma save_update_resets_images :
  let returned := spread2 shop (ProjectService.projectData_of now retitle
                                  (VArr ["React"; "Node.js"])) in
  retitle !! "projectImage" = None
  ∧ retitle !! "bannerImage" = None
  ∧ shop !! "projectImage" = Some (VStr "blob:shop.png")
  ∧ shop !! "bannerImage" = Some (VStr "blob:banner.png")
  ∧ fst (save now retitle with_shop) = Normal (Some returned)
  ∧ projects (snd (save now retitle with_shop)) = [returned]
  ∧ returned !! "_id" = shop !! "_id"
  ∧ returned !! "projectImage" = Some VNull
  ∧ returned !! "bannerImage" = Some VNull.
Proof. repeat split; by_computation. Qed.

(** C2 fails as stated: a visitor's message is submitted and marked as
    replied; [markAsRead] on its id then gives it the status 'read'. *)
Lemma markAsRead_reopens_replied :
  fst (calls [ProjectService.Call_contact now visitor;
              ProjectService.Call_markAsReplied (id_of now)] fresh) = Normal tt
  ∧ List.map (fun c => (prop c "_id", prop c "status")) (contacts replied_world)
    = [(id_of now, VStr "replied")]
  ∧ fst (markAsRead (id_of now) replied_world) = Normal true
  ∧ List.map (fun c => (prop c "_id", prop c "status"))
      (contacts (snd (markAsRead (id_of now) replied_world)))
    = [(id_of now, VStr "read")].
Proof. repeat split; by_computation. Qed.

(** The replied message of [replied_world] under [markAsReplied]. *)
Lemma replied_kept_by_all_but_markAsRead_witness :
  let c := mark_replied (id_of now) (contactData_of now visitor) in
  contacts replied_world !! 0%nat = Some c
  ∧ prop c "status" = VStr "replied"
  ∧ ∃ w' c',
      markAsReplied (id_of now) replied_world = (Normal true, w')
      ∧ contacts w' !! 0%nat = Some c'
      ∧ prop c' "status" = VStr "replied".
Proof.
  intros c.
  assert (Hc : contacts replied_world !! 0%nat = Some c) by by_computation.
  assert (Hstatus : prop c "status" = VStr "replied") by by_computation.
  split; [exact Hc |]. split; [exact Hstatus |].
  destruct (replied_kept_by_all_but_markAsRead JSON_stringify quota_exceeded
              replied_world 0%nat c Hc Hstatus) as (Hreplied & _).
  destruct (Hreplied (id_of now)) as (w' & c' & H1 & H2 & H3 & _).
  by exists w', c'.
Defined.

(** Three messages on first use, the second marked read, the first
    deleted: the count is that of the messages with [read] false. *)
Lemma unread_count_correct_witness :
  Forall Spec.read_is_boolean (contacts fresh)
  ∧ ∃ w', calls three_one_read_one_deleted fresh = (Normal tt, w')
          ∧ ProjectService.getUnreadCount w' = Spec.unread (contacts w').
Proof.
  assert (H : Forall Spec.read_is_boolean (contacts fresh)) by constructor.
  split; [exact H |].
  exact (unread_count_correct JSON_stringify quota_exceeded
           three_one_read_one_deleted fresh H).
Defined.

Example unread_after_three_and_one_read :
  ProjectService.getUnreadCount
    (snd (calls [ProjectService.Call_contact now visitor;
                 ProjectService.Call_contact later visitor;
                 ProjectService.Call_contact latest visitor;
                 ProjectService.Call_markAsRead (id_of later)] fresh)) = 2%nat.
Proof. by_computation. Qed.

Example unread_after_deleting_an_unread_one :
  ProjectService.getUnreadCount (snd (calls three_one_read_one_deleted fresh)) = 1%nat.
Proof. by_computation. Qed.

(** The initial projects, stored oldest first, are fetched newest first. *)
Lemma fetchAll_newest_first_witness :
  Forall (fun p => is_Some (created new_Date p)) (projects fresh)
  ∧ ∃ l, ProjectService.fetchAll new_Date fresh = (Normal l, fresh)
         ∧ Permutation l (projects fresh)
         ∧ StronglySorted (newer_first new_Date) l.
Proof.
  assert (H : Forall (fun p => is_Some (created new_Date p)) (projects fresh)).
  { repeat (constructor; [eexists; by_computation |]). constructor. }
  split; [exact H |].
  destruct (fetchAll_newest_first new_Date fresh H) as (l & Hrun & Hperm & _ & Hsorted & _).
  by exists l.
Defined.

Example fetchAll_initial_projects :
  List.map (fun p => prop p "_id") (sort (ProjectService.by_createdAt new_Date) (projects fresh))
  = [VStr "p3"; VStr "p2"; VStr "p1"].
Proof. by_computation. Qed.

(** An id that is in neither collection; and [delete] of "p2", twice. *)
Lemma unknown_id_is_silent_noop_witness :
  absent (VStr "p9") (projects fresh)
  ∧ absent (VStr "p9") (contacts fresh)
  ∧ projects (snd (delete (VStr "p9") fresh)) = projects fresh
  ∧ contacts (snd (markAsRead (VStr "p9") fresh)) = contacts fresh
  ∧ ∃ w1 w2,
      delete (VStr "p2") fresh = (Normal tt, w1)
      ∧ delete (VStr "p2") w1 = (Normal tt, w2)
      ∧ projects w2 = projects w1.
Proof.
  assert (Hp : absent (VStr "p9") (projects fresh)) by each_by_computation.
  assert (Hc : absent (VStr "p9") (contacts fresh)) by constructor.
  destruct (unknown_id_is_silent_noop JSON_stringify quota_exceeded fresh (VStr "p9"))
    as (Hdelete & Hmark & _).
  destruct (unknown_id_is_silent_noop JSON_stringify quota_exceeded fresh (VStr "p2"))
    as (_ & _ & w1 & w2 & H1 & H2 & _ & H3 & _).
  split; [exact Hp |]. split; [exact Hc |].
  split; [by rewrite (Hdelete Hp) |].
  split; [by rewrite (proj1 (Hmark Hc)) |].
  by exists w1, w2.
Defined.

(** The JSON text of [null] under the project key: the loader returns
    [null], which is neither a collection nor the fallback. *)
Lemma load_returns_stored_null :
  ProjectService.loadFromStorage JSON_parse holds_null
  = (Normal (NotRecords JNull), holds_null)
  ∧ ¬ load_as_specified JSON_parse (ProjectService.loadFromStorage JSON_parse)
        "portfolio-projects" INITIAL_PROJECTS holds_null.
Proof.
  assert (E : ProjectService.loadFromStorage JSON_parse holds_null
              = (Normal (NotRecords JNull), holds_null)) by by_computation.
  split; [exact E |].
  intros [[collection Hcollection] _]. rewrite E in Hcollection. discriminate Hcollection.
Qed.

(** Text that is not JSON under the project key, a one-message array
    under the contact key; storage that cannot be read; nothing stored. *)
Lemma load_returns_collection_or_fallback_witness :
  ProjectService.loadFromStorage JSON_parse half_readable
  = (Normal (Records INITIAL_PROJECTS), half_readable)
  ∧ ProjectService.loadContactsFromStorage JSON_parse half_readable
    = (Normal (Records [ ({[ "_id" := VStr "c1" ]} : obj) ]), half_readable)
  ∧ ProjectService.loadFromStorage JSON_parse (World [] [] Blocked)
    = (Normal (Records INITIAL_PROJECTS), World [] [] Blocked)
  ∧ ProjectService.loadContactsFromStorage JSON_parse fresh = (Normal (Records []), fresh).
Proof.
  destruct (load_returns_collection_or_fallback JSON_parse half_readable)
    as ((_ & _ & _ & _ & _ & _ & Hmalformed) & (_ & Hparsed & _)).
  destruct (load_returns_collection_or_fallback JSON_parse (World [] [] Blocked))
    as ((_ & _ & _ & Hblocked & _) & _).
  destruct (load_returns_collection_or_fallback JSON_parse fresh)
    as (_ & (_ & _ & _ & _ & Habsent & _)).
  split; [| split; [| split]].
  - apply (Hmalformed "[{oops" SyntaxError); by_computation.
  - apply (Hparsed (one_record_text "c1")); [by_computation | discriminate | by_computation].
  - apply Hblocked. reflexivity.
  - apply Habsent. by_computation.
Defined.

(** An unread, a read and a replied message under the selector 'read'. *)
Lemma filteredContacts_selects_witness :
  Forall Spec.read_is_boolean [unread_message; seen_message; answered_message]
  ∧ ContactManager.filteredContacts "read" [unread_message; seen_message; answered_message]
    = List.filter (Spec.selects Spec.Read) [unread_message; seen_message; answered_message].
Proof.
  assert (H : Forall Spec.read_is_boolean [unread_message; seen_message; answered_message]).
  { repeat (constructor; [eexists; by_computation |]). constructor. }
  split; [exact H |].
  exact (filteredContacts_selects Spec.Read _ H).
Defined.

Example filteredContacts_read :
  ContactManager.filteredContacts "read" [unread_message; seen_message; answered_message]
  = [seen_message].
Proof. by_computation. Qed.

(** The update of the specification's example carries no [technologies]. *)
Lemma save_without_technologies_throws_witness :
  (∀ xs, prop title_only "technologies" ≠ VArr xs)
  ∧ (∀ s, prop title_only "technologies" ≠ VStr s)
  ∧ save now title_only with_shop = (Throw TypeError, with_shop).
Proof.
  assert (E : prop title_only "technologies" = VUndefined) by by_computation.
  assert (H1 : ∀ xs, prop title_only "technologies" ≠ VArr xs)
    by (intros xs; rewrite E; discriminate).
  assert (H2 : ∀ s, prop title_only "technologies" ≠ VStr s)
    by (intros s; rewrite E; discriminate).
  split; [exact H1 |]. split; [exact H2 |].
  exact (save_without_technologies_throws JSON_stringify quota_exceeded
           now title_only with_shop H1 H2).
Defined.

(** [retitle] names the project "p7", which the initial collection lacks. *)
Lemma save_unknown_id_returns_undefined_witness :
  truthy (prop retitle "_id") = true
  ∧ ((∃ xs, prop retitle "technologies" = VArr xs)
     ∨ (∃ s, prop retitle "technologies" = VStr s))
  ∧ Forall (fun p => ProjectService.has_id (prop retitle "_id") p = false) (projects fresh)
  ∧ fst (save now retitle fresh) = Normal None
  ∧ projects (snd (save now retitle fresh)) = INITIAL_PROJECTS
  ∧ localStorage (snd (save now retitle fresh))
    = Available {[ "portfolio-projects" := "[p1,p2,p3]" ]}.
Proof.
  assert (H1 : truthy (prop retitle "_id") = true) by by_computation.
  assert (H2 : (∃ xs, prop retitle "technologies" = VArr xs)
               ∨ (∃ s, prop retitle "technologies" = VStr s)).
  { right. eexists. by_computation. }
  assert (H3 : Forall (fun p => ProjectService.has_id (prop retitle "_id") p = false)
                 (projects fresh)) by each_by_computation.
  split; [exact H1 |]. split; [exact H2 |]. split; [exact H3 |].
  rewrite (save_unknown_id_returns_undefined JSON_stringify quota_exceeded
             now retitle fresh H1 H2 H3).
  repeat split.
Defined.

(** ** More properties on concrete inputs *)

Import Samples.

Local Abbreviation contact_call := (ProjectService.call JSON_stringify quota_exceeded).

Ltac not_listed :=
  let Hin := fresh "Hin" in
  rewrite ?elem_of_cons, elem_of_nil; intros Hin;
  repeat (destruct Hin as [Hin | Hin]; [discriminate |]); exact Hin.

Ltac distinct := repeat (apply NoDup_cons_2; [not_listed |]); apply NoDup_nil_2.

(** A new project on first use. *)
Lemma save_create_inserts_at_front_witness :
  truthy (prop new_project "_id") = false
  ∧ ProjectService.technologies_of (prop new_project "technologies")
    = Normal (VArr ["OCaml"; "Rocq"])
  ∧ ∃ w' newProject,
      save now new_project fresh = (Normal (Some newProject), w')
      ∧ projects w' = newProject :: INITIAL_PROJECTS
      ∧ newProject !! "_id" = Some (VStr "p1748772000000k3j9x2m1q").
Proof.
  assert (H1 : truthy (prop new_project "_id") = false) by by_computation.
  assert (H2 : ProjectService.technologies_of (prop new_project "technologies")
               = Normal (VArr ["OCaml"; "Rocq"])) by by_computation.
  split; [exact H1 |]. split; [exact H2 |].
  destruct (save_create_inserts_at_front JSON_stringify quota_exceeded now new_project
              fresh _ H1 H2) as (w' & newProject & Hsave & Hps & _ & Hid & _).
  by exists w', newProject.
Defined.

(** The update [retitle] of the stored project [shop]. *)
Lemma save_update_keeps_ids_witness :
  truthy (prop retitle "_id") = true
  ∧ ((∃ xs, prop retitle "technologies" = VArr xs)
     ∨ (∃ s, prop retitle "technologies" = VStr s))
  ∧ ∃ returned w',
      save now retitle with_shop = (Normal returned, w')
      ∧ ids (projects w') = ids (projects with_shop).
Proof.
  assert (H1 : truthy (prop retitle "_id") = true) by by_computation.
  assert (H2 : (∃ xs, prop retitle "technologies" = VArr xs)
               ∨ (∃ s, prop retitle "technologies" = VStr s)).
  { right. eexists. by_computation. }
  split; [exact H1 |]. split; [exact H2 |].
  destruct (save_update_keeps_ids JSON_stringify quota_exceeded now retitle with_shop H1 H2)
    as (returned & w' & Hsave & Hids & _).
  by exists returned, w'.
Defined.

(** The initial projects, a delete and a create. *)
Lemma project_ids_stay_distinct_witness :
  NoDup (ids (projects fresh))
  ∧ (VStr ("p" ++ Date_now now ++ Math_random now) ∉ ids (projects fresh))
  ∧ NoDup (ids (projects (snd (delete (VStr "p2") fresh))))
  ∧ NoDup (ids (projects (snd (save now new_project fresh)))).
Proof.
  assert (Hids : ids (projects fresh) = [VStr "p1"; VStr "p2"; VStr "p3"])
    by by_computation.
  assert (Hnew : VStr ("p" ++ Date_now now ++ Math_random now)
                 = VStr "p1748772000000k3j9x2m1q") by by_computation.
  assert (H : NoDup (ids (projects fresh))) by (rewrite Hids; distinct).
  assert (Hfresh : VStr ("p" ++ Date_now now ++ Math_random now) ∉ ids (projects fresh))
    by (rewrite Hids, Hnew; not_listed).
  destruct (project_ids_stay_distinct JSON_stringify quota_exceeded fresh H)
    as [Hdelete Hsave].
  split; [exact H |]. split; [exact Hfresh |].
  split; [apply Hdelete | by apply Hsave].
Defined.

(** Deleting the only project: the empty collection is written and read. *)
Lemma projects_survive_reload_witness :
  let w' := snd (delete (VStr "p7") with_shop) in
  takes JSON_stringify quota_exceeded "portfolio-projects" (projects w') (localStorage with_shop)
  ∧ reads_back JSON_parse JSON_stringify (projects w')
  ∧ starts_with JSON_parse w' (Records (projects w')) (Records [])
  ∧ projects w' = [].
Proof.
  intros w'.
  assert (H1 : takes JSON_stringify quota_exceeded "portfolio-projects" (projects w')
                 (localStorage with_shop)) by (eexists; split; reflexivity).
  assert (H2 : reads_back JSON_parse JSON_stringify (projects w'))
    by (split; [discriminate | by_computation]).
  destruct (projects_survive_reload JSON_parse JSON_stringify quota_exceeded with_shop)
    as [Hdelete _].
  destruct (Hdelete (VStr "p7") H1 H2) as (before & Hbefore & Hstarts).
  assert (E : ProjectService.this_contacts before = Records []).
  { assert (Hrun : match fst (ProjectService.constructor JSON_parse with_shop) with
                   | Normal f => ProjectService.this_contacts f
                   | Throw _ => Records []
                   end = Records []) by by_computation.
    by rewrite Hbefore in Hrun. }
  rewrite E in Hstarts.
  split; [exact H1 |]. split; [exact H2 |]. split; [exact Hstarts | by_computation].
Defined.

(** Marking with an id that is not there: the one message is written
    and read. *)
Lemma contacts_survive_reload_witness :
  let w' := snd (ProjectService.call JSON_stringify_ids quota_exceeded
                   (ProjectService.Call_markAsRead (VStr "c9")) one_message) in
  takes JSON_stringify_ids quota_exceeded "portfolio-contacts" (contacts w')
    (localStorage one_message)
  ∧ reads_back JSON_parse JSON_stringify_ids (contacts w')
  ∧ starts_with JSON_parse w' (Records INITIAL_PROJECTS) (Records (contacts w'))
  ∧ contacts w' = contacts one_message.
Proof.
  intros w'.
  assert (H1 : takes JSON_stringify_ids quota_exceeded "portfolio-contacts" (contacts w')
                 (localStorage one_message)) by (eexists; split; reflexivity).
  assert (H2 : reads_back JSON_parse JSON_stringify_ids (contacts w'))
    by (split; [discriminate | by_computation]).
  split; [exact H1 |]. split; [exact H2 |].
  split; [| by_computation].
  destruct (contacts_survive_reload JSON_parse JSON_stringify_ids quota_exceeded one_message
              (ProjectService.Call_markAsRead (VStr "c9")) H1 H2)
    as (before & Hbefore & Hstarts).
  assert (E : ProjectService.this_projects before = Records INITIAL_PROJECTS).
  { assert (Hrun : match fst (ProjectService.constructor JSON_parse one_message) with
                   | Normal f => ProjectService.this_projects f
                   | Throw _ => Records []
                   end = Records INITIAL_PROJECTS) by by_computation.
    by rewrite Hbefore in Hrun. }
  by rewrite E in Hstarts.
Defined.

(** Storage that cannot be used: the message and the new project are
    kept in memory. *)
Lemma storage_failure_is_absorbed_witness :
  refuses quota_exceeded (localStorage blocked)
  ∧ (∃ ack w', ProjectService.contact JSON_stringify quota_exceeded now visitor blocked
               = (Normal ack, w')
               ∧ length (contacts w') = 1%nat
               ∧ localStorage w' = Blocked)
  ∧ (∃ newProject w', save now new_project blocked = (Normal (Some newProject), w')
                      ∧ projects w' = newProject :: INITIAL_PROJECTS
                      ∧ localStorage w' = Blocked).
Proof.
  assert (H : refuses quota_exceeded (localStorage blocked)) by by left.
  split; [exact H |].
  destruct (storage_failure_is_absorbed JSON_stringify quota_exceeded blocked H)
    as (_ & Hcontact & _ & _ & _ & _ & _ & _ & Hcreate & _).
  split.
  - eexists _, _. split; [apply Hcontact |]. by split.
  - eexists _, _.
    split; [apply (Hcreate now new_project (VArr ["OCaml"; "Rocq"])); by_computation |].
    by split.
Defined.

(** Two dated messages, stored oldest first. *)
Lemma getContacts_newest_first_witness :
  Forall (fun c => is_Some (created new_Date c)) (contacts dated_messages)
  ∧ ∃ l, ProjectService.getContacts new_Date dated_messages = (Normal l, dated_messages)
         ∧ StronglySorted (newer_first new_Date) l.
Proof.
  assert (H : Forall (fun c => is_Some (created new_Date c)) (contacts dated_messages)).
  { repeat (constructor; [eexists; by_computation |]). constructor. }
  split; [exact H |]. exact (getContacts_newest_first new_Date dated_messages H).
Defined.

Example getContacts_dated_messages :
  List.map (fun c => prop c "_id")
    (sort (ProjectService.by_createdAt new_Date) (contacts dated_messages))
  = [VStr "c2"; VStr "c1"].
Proof. by_computation. Qed.

Ltac all_normalised :=
  repeat (constructor; [split; [discriminate | split; by_computation] |]); constructor.

(** The stored project [shop] opened in the form. *)
Lemma edit_form_keeps_technologies_witness :
  prop shop "technologies" = VArr ["React"]
  ∧ Forall normalised ["React"]
  ∧ ∃ projectToSave,
      ProjectForm.projectToSave_of (ProjectForm.formData_of (Some shop)) (Some shop)
      = Normal projectToSave
      ∧ projectToSave !! "technologies" = Some (VArr ["React"]).
Proof.
  assert (H1 : prop shop "technologies" = VArr ["React"]) by by_computation.
  assert (H2 : Forall normalised ["React"]) by all_normalised.
  split; [exact H1 |]. split; [exact H2 |].
  exact (edit_form_keeps_technologies shop ["React"] H1 H2).
Defined.

Example form_text_of_three :
  ProjectForm.projectToSave_of
    (ProjectForm.formData_of
       (Some ({[ "technologies" := VArr ["React"; "Node.js"; "D3.js"] ]} : obj))) None
  = Normal ({[ "technologies" := VArr ["React"; "Node.js"; "D3.js"];
               "projectImage" := VNull; "bannerImage" := VNull ]} : obj).
Proof. by_computation. Qed.

Lemma handleSubmit_outcomes_witness :
  ProjectForm.validateForm URL_accepts filled = Normal ∅
  ∧ prop filled "technologies" = VStr "OCaml, Rocq"
  ∧ ∃ savedProject w',
      ProjectForm.handleSubmit URL_accepts JSON_stringify quota_exceeded now filled None fresh
      = (Normal (ProjectForm.Success savedProject), w').
Proof.
  assert (H1 : ProjectForm.validateForm URL_accepts filled = Normal ∅) by by_computation.
  assert (H2 : prop filled "technologies" = VStr "OCaml, Rocq") by by_computation.
  split; [exact H1 |]. split; [exact H2 |].
  destruct (handleSubmit_outcomes JSON_stringify quota_exceeded URL_accepts now filled None
              fresh ∅ H1) as [_ Hvalid].
  destruct (Hvalid eq_refl) as [Hstring _].
  destruct (Hstring _ H2) as (projectToSave & savedProject & w' & _ & _ & Hsubmit).
  by exists savedProject, w'.
Defined.

Example handleSubmit_rejects_short_title :
  ProjectForm.handleSubmit URL_accepts JSON_stringify quota_exceeded now
    (ProjectForm.handleChange "title" "ab" filled) None fresh
  = (Normal (ProjectForm.Rejected {[ "title" := "Title must be at least 3 characters" ]}),
     fresh).
Proof. by_computation. Qed.

(** The stored project [shop], opened and submitted as it is. *)
Lemma edit_without_change_witness :
  projects with_shop !! 0%nat = Some shop
  ∧ prop shop "_id" = VStr "p7"
  ∧ shop !! "technologies" = Some (VArr ["React"])
  ∧ Forall normalised ["React"]
  ∧ ProjectForm.validateForm URL_accepts (ProjectForm.formData_of (Some shop)) = Normal ∅
  ∧ ∃ savedProject w',
      ProjectForm.handleSubmit URL_accepts JSON_stringify quota_exceeded now
        (ProjectForm.formData_of (Some shop)) (Some shop) with_shop
      = (Normal (ProjectForm.Success savedProject), w')
      ∧ projects w' !! 0%nat = Some (touched now shop).
Proof.
  assert (H1 : projects with_shop !! 0%nat = Some shop) by reflexivity.
  assert (H2 : prop shop "_id" = VStr "p7") by by_computation.
  assert (H3 : shop !! "technologies" = Some (VArr ["React"])) by by_computation.
  assert (H4 : Forall normalised ["React"]) by all_normalised.
  assert (H5 : ProjectForm.validateForm URL_accepts (ProjectForm.formData_of (Some shop))
               = Normal ∅) by by_computation.
  repeat (split; [assumption |]).
  destruct (edit_without_change JSON_stringify quota_exceeded URL_accepts now with_shop
              0%nat shop "p7" ["React"] H1 H2 ltac:(discriminate) H3 H4 H5)
    as (savedProject & w' & Hsubmit & Hplace & _).
  by exists savedProject, w'.
Defined.

(** The dashboard holding the initial projects newest first, and a new
    project saved. *)
Lemma admin_list_stays_in_step_witness :
  Permutation (rev INITIAL_PROJECTS) (projects fresh)
  ∧ NoDup (ids (projects fresh))
  ∧ ∃ savedProject w',
      save now new_project fresh = (Normal (Some savedProject), w')
      ∧ Permutation (ProjectAdmin.handleSave savedProject (rev INITIAL_PROJECTS))
          (projects w').
Proof.
  assert (H1 : Permutation (rev INITIAL_PROJECTS) (projects fresh))
    by apply Permutation_sym, Permutation_rev.
  assert (Hids : ids (projects fresh) = [VStr "p1"; VStr "p2"; VStr "p3"])
    by by_computation.
  assert (Hnew : VStr ("p" ++ Date_now now ++ Math_random now)
                 = VStr "p1748772000000k3j9x2m1q") by by_computation.
  assert (H2 : NoDup (ids (projects fresh))) by (rewrite Hids; distinct).
  assert (H3 : VStr ("p" ++ Date_now now ++ Math_random now) ∉ ids (projects fresh))
    by (rewrite Hids, Hnew; not_listed).
  split; [exact H1 |]. split; [exact H2 |].
  destruct (admin_list_stays_in_step JSON_stringify quota_exceeded new_Date fresh
              (rev INITIAL_PROJECTS) H1 H2) as (_ & _ & Hsave).
  assert (Hcreate : ∃ savedProject w',
            save now new_project fresh = (Normal (Some savedProject), w')).
  { eexists _, _.
    apply (save_create_eq JSON_stringify quota_exceeded now new_project fresh
             (VArr ["OCaml"; "Rocq"])); by_computation. }
  destruct Hcreate as (savedProject & w' & Hrun).
  exists savedProject, w'. split; [exact Hrun |]. by apply (Hsave now new_project).
Defined.

(** The example of the specification: two projects, the technology
    'React', and the search for 'chat' under 'All'. *)
Lemma filteredProjects_selects_witness :
  ProjectList.filteredProjects two_projects "All" "chat" = Normal (drop 1 two_projects)
  ∧ sublist (drop 1 two_projects) two_projects.
Proof.
  assert (H : ProjectList.filteredProjects two_projects "All" "chat"
              = Normal (drop 1 two_projects)) by by_computation.
  split; [exact H |].
  by destruct (filteredProjects_selects two_projects "All" "chat" _ H) as [Hsub _].
Defined.

Example filteredProjects_by_technology :
  ProjectList.filteredProjects two_projects "React" "" = Normal (take 1 two_projects).
Proof. by_computation. Qed.

Example filteredProjects_ignores_case :
  ProjectList.filteredProjects two_projects "All" "CHAT" = Normal (drop 1 two_projects).
Proof. by_computation. Qed.

(** A search over a list that holds a project without a title. *)
Lemma search_throws_without_title_witness :
  "shop" ≠ ""
  ∧ untitled ∈ (two_projects ++ [untitled])%list
  ∧ (∀ s, prop untitled "title" ≠ VStr s)
  ∧ ProjectList.filteredProjects (two_projects ++ [untitled])%list "All" "shop" = Throw TypeError.
Proof.
  assert (H1 : "shop" ≠ "") by discriminate.
  assert (H2 : untitled ∈ (two_projects ++ [untitled])%list)
    by (apply elem_of_app; right; apply list_elem_of_here).
  assert (E : prop untitled "title" = VUndefined) by by_computation.
  assert (H3 : ∀ s, prop untitled "title" ≠ VStr s) by (intros s; rewrite E; discriminate).
  split; [exact H1 |]. split; [exact H2 |]. split; [exact H3 |].
  exact (search_throws_without_title _ "shop" untitled H1 H2 H3).
Defined.

(** A visitor without the password. *)
Lemma dashboard_needs_login_witness :
  truthy (App.isAdminLoggedIn logged_out) = false
  ∧ Forall no_password visit
  ∧ App.renderPage (App.steps JSON_stringify_value quota_exceeded visit logged_out)
    ≠ App.ProjectAdmin
  ∧ App.page (App.steps JSON_stringify_value quota_exceeded visit logged_out) = "admin".
Proof.
  assert (H1 : truthy (App.isAdminLoggedIn logged_out) = false) by reflexivity.
  assert (H2 : Forall no_password visit) by (repeat constructor; discriminate).
  split; [exact H1 |]. split; [exact H2 |].
  destruct (dashboard_needs_login quota_exceeded JSON_stringify_value logged_out)
    as (_ & Hout & _).
  destruct (Hout H1 visit H2) as [_ Hrender].
  split; [exact Hrender | reflexivity].
Defined.

(** Logging in, and mounting again on the storage left. *)
Lemma login_is_read_from_storage_witness :
  App.storage_ logged_out = Available ∅
  ∧ App.isAdminLoggedIn
      (App.mount JSON_parse_value
         (App.storage_
            (App.step JSON_stringify_value quota_exceeded
               (App.PasswordModal_handleSubmit CONFIG.ADMIN_PASSWORD) logged_out)))
    = VBool true.
Proof.
  assert (H1 : App.storage_ logged_out = Available ∅) by reflexivity.
  split; [exact H1 |].
  destruct (login_is_read_from_storage quota_exceeded JSON_parse_value JSON_stringify_value
              logged_out ∅) as [Hlogin _].
  apply Hlogin; [exact H1 | reflexivity | discriminate | by_computation].
Defined.

(** The three messages of [inbox] under the selectors. *)
Lemma contact_selectors_cover_witness :
  seen_message ∈ ContactManager.filteredContacts "read" inbox
  ∧ (seen_message ∉ ContactManager.filteredContacts "new" inbox)
  ∧ (seen_message ∉ ContactManager.filteredContacts "replied" inbox).
Proof.
  assert (H : ContactManager.filteredContacts "read" inbox = [seen_message])
    by by_computation.
  assert (H1 : seen_message ∈ ContactManager.filteredContacts "read" inbox)
    by (rewrite H; apply list_elem_of_here).
  destruct (contact_selectors_cover inbox) as (_ & Hread & _).
  split; [exact H1 | exact (Hread seen_message H1)].
Defined.

(** The facets of the two projects. *)
Lemma uniqueTechnologies_facets_witness :
  ∃ uniqueTechs,
    ProjectList.uniqueTechnologies Number_toString two_projects = VStr "All" :: uniqueTechs
    ∧ VStr "React" ∈ uniqueTechs.
Proof.
  destruct (uniqueTechnologies_facets Number_toString two_projects) as (uniqueTechs & Hall & _ & _ & _ & Hin).
  exists uniqueTechs. split; [exact Hall |].
  eapply (Hin _ ["React"] "React");
    [unfold two_projects; apply list_elem_of_here | by_computation | apply list_elem_of_here].
Defined.

(** A project created on first use, under a host that reads its date. *)
Lemma created_is_listed_first_witness :
  truthy (prop new_project "_id") = false
  ∧ new_Date_2025 (VStr (toISOString_2 now)) = Some 1748772000001
  ∧ Forall (not_newer new_Date_2025 1748772000001) (projects fresh)
  ∧ ∃ newProject w' l,
      save now new_project fresh = (Normal (Some newProject), w')
      ∧ ProjectService.fetchAll new_Date_2025 fresh = (Normal l, fresh)
      ∧ ProjectService.fetchAll new_Date_2025 w' = (Normal (newProject :: l), w').
Proof.
  assert (H1 : truthy (prop new_project "_id") = false) by by_computation.
  assert (H2 : ProjectService.technologies_of (prop new_project "technologies")
               = Normal (VArr ["OCaml"; "Rocq"])) by by_computation.
  assert (Hnow : new_Date_2025 (VStr (toISOString_2 now)) = Some 1748772000001)
    by by_computation.
  assert (H3 : Forall (not_newer new_Date_2025 1748772000001) (projects fresh)).
  { repeat (constructor; [eexists; split; [by_computation | lia] |]). constructor. }
  split; [exact H1 |]. split; [exact Hnow |]. split; [exact H3 |].
  destruct (created_is_listed_first JSON_stringify quota_exceeded new_Date_2025 fresh now)
    as [Hproject _].
  exact (Hproject new_project _ _ H1 H2 Hnow H3).
Defined.

Example fetchAll_after_create :
  List.map (fun p => prop p "_id")
    (sort (ProjectService.by_createdAt new_Date_2025)
       (projects (snd (save now new_project fresh))))
  = [VStr "p1748772000000k3j9x2m1q"; VStr "p3"; VStr "p2"; VStr "p1"].
Proof. by_computation. Qed.

(** The form filled for a new project. *)
Lemma validateForm_accepts_witness :
  ProjectForm.validateForm URL_accepts filled = Normal ∅
  ∧ acceptable_text "title" 3 filled
  ∧ acceptable_url URL_accepts "liveUrl" filled.
Proof.
  assert (H : ProjectForm.validateForm URL_accepts filled = Normal ∅) by by_computation.
  destruct (proj1 (validateForm_accepts URL_accepts filled) H) as (Htitle & _ & Hlive & _).
  split; [exact H |]. split; [exact Htitle | exact Hlive].
Defined.

Example validateForm_counts_white_space :
  ProjectForm.validateForm URL_accepts (ProjectForm.handleChange "title" " a " filled)
  = Normal ∅.
Proof. by_computation. Qed.

(** A visitor's letter, with storage that cannot be used. *)
Lemma contact_form_outcomes_witness :
  prop letter "name" = VStr "Ada"
  ∧ prop letter "email" = VStr "ada@example.com"
  ∧ prop letter "message" = VStr "Hello from Ada."
  ∧ sendable "Ada" "ada@example.com" "Hello from Ada." = true
  ∧ ∃ w', ContactForm.handleSubmit JSON_stringify quota_exceeded now letter blocked
          = (Normal (ContactForm.Success
                       (prop (acknowledgement now) "message"),
                     ContactForm.initialFormData), w')
          ∧ length (contacts w') = 1%nat.
Proof.
  assert (H1 : prop letter "name" = VStr "Ada") by by_computation.
  assert (H2 : prop letter "email" = VStr "ada@example.com") by by_computation.
  assert (H3 : prop letter "message" = VStr "Hello from Ada.") by by_computation.
  assert (H4 : sendable "Ada" "ada@example.com" "Hello from Ada." = true) by by_computation.
  repeat (split; [assumption |]).
  destruct (contact_form_outcomes JSON_stringify quota_exceeded now letter blocked
              _ _ _ H1 H2 H3) as [Hsent _].
  destruct (Hsent H4) as (w' & Hsubmit & Hcs & _).
  exists w'. split; [exact Hsubmit |]. by rewrite Hcs.
Defined.

Example email_pattern_test_cases :
  List.map ContactForm.email_pattern_test
    ["ada@example.com"; "to ada@example.com now"; "a@b"; "@b.c"; "a@.c"; "a@..c";
     "a @b.c"; "a@b .c"; "a@b."; "a@@b.c"]
  = [true; true; false; false; false; true; false; false; false; true].
Proof. by_computation. Qed.

Example contact_form_rejects_short_message :
  ContactForm.handleSubmit JSON_stringify quota_exceeded now
    (ContactForm.handleChange "message" "Hello" letter) fresh
  = (Normal (ContactForm.Rejected, ContactForm.handleChange "message" "Hello" letter), fresh).
Proof. by_computation. Qed.
